(** * AgriHealth backend: authentication, role guard and resource handlers

    A shallow embedding of the Express middleware and controllers of the
    AgriHealth backend (middleware/auth.js, controllers/articleController.js,
    models/Article.js, the two contact routes and the contact form of the
    page), with the properties of the request pipeline proved about it.

    A JavaScript string is held as the string of the bytes of its UTF-8
    encoding ([string]); HTTP statuses and timestamps are integers ([Z]);
    a collection of documents is a finite map from the document
    identifier to the document ([gmap]). A call to the document store
    may be rejected: every such call takes the failure the store answers
    with, if any. *)

From Stdlib Require Import ZArith Ascii.
From stdpp Require Import gmap strings list sorting.

Local Open Scope Z_scope.

(** ** JavaScript string primitives used by the source *)

Module JS.

(** [s.startsWith(p)] *)
Definition startsWith (s p : string) : bool := String.prefix p s.

(** [s.split(sep)] for a separator of one character: the pieces between
    the occurrences of [sep], empty pieces included; never the empty
    list. *)
Fixpoint split (sep : ascii) (s : string) : list string :=
  match s with
  | EmptyString => [EmptyString]
  | String c rest =>
      if Ascii.eqb c sep then EmptyString :: split sep rest
      else match split sep rest with
           | [] => [String c EmptyString]
           | piece :: pieces => String c piece :: pieces
           end
  end.

(** Truthiness of a string value: every string but the empty one. *)
Definition truthy (s : string) : bool :=
  match s with EmptyString => false | String _ _ => true end.

(** Truthiness of a value that is a string or [undefined]. *)
Definition truthy_opt (v : option string) : bool :=
  match v with None => false | Some s => truthy s end.

(** [roles.includes(r)] on an array of strings. *)
Definition includes (xs : list string) (x : string) : bool :=
  bool_decide (x ∈ xs).


(** The UTF-16 code units a character takes, counted at the bytes of
    its UTF-8 encoding: none at a continuation byte, two at the first
    byte of a character of four bytes, one at any other first byte. *)
Definition units (c : ascii) : nat :=
  let n := nat_of_ascii c in
  if bool_decide (128 ≤ n < 192)%nat then 0%nat
  else if bool_decide (240 ≤ n)%nat then 2%nat
  else 1%nat.

(** [s.length]: the number of UTF-16 code units. *)
Fixpoint length (s : string) : nat :=
  match s with
  | EmptyString => 0%nat
  | String c rest => (units c + length rest)%nat
  end.

Definition of_bytes (l : list nat) : string :=
  foldr (λ n s, String (ascii_of_nat n) s) EmptyString l.

(** The characters [trim] removes, each in UTF-8: the WhiteSpace and
    LineTerminator code points of ECMAScript, U+0009 to U+000D, U+0020,
    U+00A0, U+1680, U+2000 to U+200A, U+2028, U+2029, U+202F, U+205F,
    U+3000 and U+FEFF. *)
Definition white_space : list string :=
  of_bytes <$>
    [[9]; [10]; [11]; [12]; [13]; [32]; [194; 160]; [225; 154; 128];
     [226; 128; 128]; [226; 128; 129]; [226; 128; 130]; [226; 128; 131];
     [226; 128; 132]; [226; 128; 133]; [226; 128; 134]; [226; 128; 135];
     [226; 128; 136]; [226; 128; 137]; [226; 128; 138]; [226; 128; 168];
     [226; 128; 169]; [226; 128; 175]; [226; 129; 159]; [227; 128; 128];
     [239; 187; 191]]%nat.

(** [s] without the prefix [p], when it starts with [p]. *)
Fixpoint strip_prefix (p s : string) : option string :=
  match p with
  | EmptyString => Some s
  | String a p' =>
      match s with
      | String b s' => if Ascii.eqb a b then strip_prefix p' s' else None
      | EmptyString => None
      end
  end.

(** [s] without its first character, when that is white space. *)
Definition strip_space (s : string) : option string :=
  foldr (λ p found,
           match strip_prefix p s with
           | Some rest => Some rest
           | None => found
           end)
        None white_space.

Fixpoint trimStart_go (fuel : nat) (s : string) : string :=
  match fuel with
  | O => s
  | S fuel' =>
      match strip_space s with
      | Some rest => trimStart_go fuel' rest
      | None => s
      end
  end.

(** [s.trimStart()]: one step for every byte is enough, see
    [trimStart_done]. *)
Definition trimStart (s : string) : string :=
  trimStart_go (String.length s) s.

(** A string of white space only (the empty string included). *)
Definition all_space (s : string) : bool :=
  match trimStart s with
  | EmptyString => true
  | String _ _ => false
  end.

(** [s.trimEnd()] *)
Fixpoint trimEnd (s : string) : string :=
  match s with
  | EmptyString => EmptyString
  | String c rest =>
      if all_space (String c rest) then EmptyString
      else String c (trimEnd rest)
  end.

(** [s.trim()] *)
Definition trim (s : string) : string := trimEnd (trimStart s).

End JS.

(** ** Errors that travel to [next(err)] *)

(** The three error classes thrown by [jwt.verify]. *)
Inductive JwtFailure :=
| JsonWebTokenError (message : string)
| TokenExpiredError (message : string)
| NotBeforeError (message : string).

(** A rejected call to the document store (a lost connection, an
    identifier the driver cannot cast, a duplicate key). *)
Record StoreFailure := { failure_name : string; failure_message : string }.

Inductive Err :=
| AppError (message : string) (statusCode : Z)
    (* utils/appError: an operational error carrying its HTTP status *)
| JwtError (e : JwtFailure)
| ValidationError (message : string) (errors : gmap string string)
    (* mongoose: [errors] holds the message of every violated path *)
| TypeError (message : string)
| StoreError (e : StoreFailure).

(** [err.message] *)
Definition err_message (e : Err) : string :=
  match e with
  | AppError m _ => m
  | JwtError (JsonWebTokenError m) => m
  | JwtError (TokenExpiredError m) => m
  | JwtError (NotBeforeError m) => m
  | ValidationError m _ => m
  | TypeError m => m
  | StoreError f => failure_message f
  end.

(** ** Users and requests *)

Record User := {
  user_id : string;
  email : string;
  password : string;   (* the stored credential hash *)
  role : string
}.

Record Headers := { authorization : option string }.

(** A value of [req.query] as the query string parser of Express makes
    it: a string, an array ([?category=a&category=b]) or an object
    ([?category[$ne]=a]). *)
#[local] Unset Elimination Schemes.
Inductive QueryValue :=
| QString (s : string)
| QArray (items : list QueryValue)
| QObject (fields : list (string * QueryValue)).
#[local] Set Elimination Schemes.

(** Truthiness of a query value or [undefined]: an array and an object
    are truthy, a string is unless it is empty. *)
Definition truthy_value (v : option QueryValue) : bool :=
  match v with
  | None => false
  | Some (QString s) => JS.truthy s
  | Some (QArray _) | Some (QObject _) => true
  end.

(** [req.query] of the article list route. *)
Record Query := {
  q_category : option QueryValue;
  q_language : option QueryValue
}.

(** The part of an Express request the middleware and controllers read:
    [req.headers], [req.user], [req.params.id], [req.query] and
    [req.body] (of type [B], fixed by the route). *)
Record Request (B : Type) := {
  headers : Headers;
  user : option User;
  params_id : string;
  query : Query;
  body : B
}.
Arguments headers {B} _.
Arguments user {B} _.
Arguments params_id {B} _.
Arguments query {B} _.
Arguments body {B} _.

(** [req.user = u] *)
Definition set_user {B} (u : User) (req : Request B) : Request B :=
  {| headers := headers req; user := Some u; params_id := params_id req;
     query := query req; body := body req |}.

(** ** models/Article.js *)

Module Article.

(** A stored article; its [_id] is the key under which the collection
    holds it. Dates are milliseconds since the epoch. *)
Record Doc := {
  title : string;
  content : string;
  category : string;
  readTime : Z;
  language : string;
  imageUrl : option string;
  externalLink : option string;
  createdAt : Z;
  updatedAt : option Z
}.

(** The body of a create request: every schema path may be absent. *)
Record Payload := {
  p_title : option string;
  p_content : option string;
  p_category : option string;
  p_readTime : option Z;
  p_language : option string;
  p_imageUrl : option string;
  p_externalLink : option string;
  p_createdAt : option Z;
  p_updatedAt : option Z
}.

Definition categories : list string :=
  ["Chemical Safety"; "Nutrition"; "First Aid"; "Mental Health"; "Hygiene"].

Definition languages : list string :=
  ["English"; "Français"; "Kinyarwanda"; "Swahili"].

(** The outcome of the validators of one path: the message of the first
    validator that fails, or the value to store. *)
Definition Checked (A : Type) : Type := string + A.

(** [required] on a String path fails on a missing and on an empty
    value; it runs before the other validators of the path. *)
Definition required (msg : string) (v : option string) : Checked string :=
  match v with
  | Some (String c s) => inr (String c s)
  | _ => inl msg
  end.

Definition required_number (msg : string) (v : option Z) : Checked Z :=
  match v with
  | Some n => inr n
  | None => inl msg
  end.

(** [maxlength] compares the [length] of the value. *)
Definition maxlength (n : nat) (msg : string) (s : string) : Checked string :=
  if bool_decide (JS.length s ≤ n)%nat then inr s else inl msg.

Definition enum (values : list string) (msg : string → string) (s : string)
  : Checked string :=
  if JS.includes values s then inr s else inl (msg s).

(** The message mongoose builds when the schema gives an [enum] without
    one. *)
Definition default_enum_message (path value : string) : string :=
  "`" +:+ value +:+ "` is not a valid enum value for path `" +:+ path +:+ "`.".

(** A custom validator runs only on a value that is present. *)
Definition validate_with (ok : string → bool) (msg : string) (v : option string)
  : Checked (option string) :=
  match v with
  | Some s => if ok s then inr (Some s) else inl msg
  | None => inr None
  end.

Definition and_then {A B} (r : Checked A) (f : A → Checked B) : Checked B :=
  match r with
  | inl msg => inl msg
  | inr a => f a
  end.

(** The entry of [errors] for a path whose validation failed. *)
Definition violation {A} (path : string) (r : Checked A) : gmap string string :=
  match r with
  | inl msg => {[ path := msg ]}
  | inr _ => ∅
  end.

Section schema.
(** [validator.isURL], the clock behind [Date.now], and the text
    mongoose makes of the violations for [err.message]: it names the
    paths in the order it validated them, which is not the order of the
    schema (paths the body left out come first, then the paths of the
    body in the order of its keys). *)
Variable isURL : string → bool.
Variable now : Z.
Variable summary : gmap string string → string.

Definition validation_failed (vs : gmap string string) : Err :=
  ValidationError ("Article validation failed: " +:+ summary vs) vs.

(** [articleSchema]: the setters ([trim]), the validators of every path
    and the default of [createdAt], applied to a candidate document. *)
Definition validate (p : Payload) : Err + Doc :=
  let r_title :=
    and_then (required "Please provide a title" (JS.trim <$> p_title p))
             (maxlength 100 "Title cannot exceed 100 characters") in
  let r_content := required "Please provide content" (JS.trim <$> p_content p) in
  let r_category :=
    and_then (required "Please select a category" (p_category p))
             (enum categories (λ _, "Please select a valid category")) in
  let r_readTime :=
    required_number "Please provide estimated read time" (p_readTime p) in
  let r_language :=
    and_then (required "Please select language" (p_language p))
             (enum languages (default_enum_message "language")) in
  let r_imageUrl :=
    validate_with isURL "Please provide a valid URL" (p_imageUrl p) in
  let r_externalLink :=
    validate_with isURL "Please provide a valid URL" (p_externalLink p) in
  match r_title, r_content, r_category, r_readTime, r_language,
        r_imageUrl, r_externalLink with
  | inr t, inr c, inr cat, inr rt, inr l, inr img, inr ext =>
      inr {| title := t; content := c; category := cat; readTime := rt;
             language := l; imageUrl := img; externalLink := ext;
             createdAt := default now (p_createdAt p);
             updatedAt := p_updatedAt p |}
  | _, _, _, _, _, _, _ =>
      inl (validation_failed
             (violation "title" r_title ∪ violation "content" r_content ∪
              violation "category" r_category ∪
              violation "readTime" r_readTime ∪
              violation "language" r_language ∪
              violation "imageUrl" r_imageUrl ∪
              violation "externalLink" r_externalLink))
  end.

(** [Article.create(body)]: validate, then insert under the identifier
    [oid] the driver generated; the store may reject the call, and it
    rejects a key already in use. Nothing is written, and the store is
    not asked, unless validation passed. *)
Definition create (oid : string) (outage : option StoreFailure) (p : Payload)
    (db : gmap string Doc)
  : (Err + string * Doc) * gmap string Doc :=
  match validate p with
  | inl e => (inl e, db)
  | inr doc =>
      match outage with
      | Some failure => (inl (StoreError failure), db)
      | None =>
          match db !! oid with
          | Some _ =>
              (inl (StoreError
                      {| failure_name := "MongoError";
                         failure_message := "E11000 duplicate key error" |}),
               db)
          | None => (inr (oid, doc), <[oid := doc]> db)
          end
      end
  end.
End schema.

Definition quoted (s : string) : string :=
  String (ascii_of_nat 34) (s +:+ String (ascii_of_nat 34) EmptyString).

(** The rejection of an identifier that is not an ObjectId. *)
Definition cast_error (id : string) : StoreFailure :=
  {| failure_name := "CastError";
     failure_message :=
       "Cast to ObjectId failed for value " +:+ quoted id +:+ " at path " +:+
       quoted "_id" +:+ " for model " +:+ quoted "Article" |}.

(** The filter object of a query: a key is present or not. *)
Record Filter := {
  f_category : option QueryValue;
  f_language : option QueryValue
}.

Section queries.
(** The cast of an identifier to an ObjectId (its canonical text), which
    fails on a string that is not one; and the cast of a filter value
    that is not a string, to a test on the field or to a rejection. *)
Variable castObjectId : string → option string.
Variable castFilter : QueryValue → StoreFailure + (string → bool).

(** [Article.findById(id)]: the identifier is cast before the store is
    asked. *)
Definition findById (outage : option StoreFailure) (id : string)
    (db : gmap string Doc) : Err + option (string * Doc) :=
  match castObjectId id with
  | None => inl (StoreError (cast_error id))
  | Some oid =>
      match outage with
      | Some failure => inl (StoreError failure)
      | None => inr ((λ doc, (oid, doc)) <$> db !! oid)
      end
  end.

(** [Article.findByIdAndDelete(id)]: the removed document, or [null]. *)
Definition findByIdAndDelete (outage : option StoreFailure) (id : string)
    (db : gmap string Doc)
  : (Err + option (string * Doc)) * gmap string Doc :=
  match castObjectId id with
  | None => (inl (StoreError (cast_error id)), db)
  | Some oid =>
      match outage with
      | Some failure => (inl (StoreError failure), db)
      | None => (inr ((λ doc, (oid, doc)) <$> db !! oid), delete oid db)
      end
  end.

(** What a key of the filter demands of the field: nothing when the key
    is absent, equality with a string, and for any other value what the
    cast of the query makes of it. *)
Definition condition (k : option QueryValue) : StoreFailure + (string → bool) :=
  match k with
  | None => inr (λ _, true)
  | Some (QString c) => inr (λ x, bool_decide (x = c))
  | Some other => castFilter other
  end.

(** [Article.find(filter)]: the filter is cast before the store is
    asked. *)
Definition find (outage : option StoreFailure) (f : Filter)
    (db : gmap string Doc) : Err + list (string * Doc) :=
  match condition (f_category f), condition (f_language f) with
  | inr in_category, inr in_language =>
      match outage with
      | Some failure => inl (StoreError failure)
      | None =>
          inr (filter (λ d, in_category (category d.2) &&
                            in_language (language d.2))
                      (map_to_list db))
      end
  | inl failure, _ => inl (StoreError failure)
  | inr _, inl failure => inl (StoreError failure)
  end.
End queries.

(** The order of [sort('-createdAt')]: newest first. *)
Definition newer_first (a b : string * Doc) : Prop := createdAt b.2 ≤ createdAt a.2.

#[export] Instance newer_first_dec a b : Decision (newer_first a b).
Proof. unfold newer_first. apply _. Defined.

#[export] Instance newer_first_total : Total newer_first.
Proof. intros a b. unfold newer_first. lia. Qed.

#[export] Instance newer_first_trans : Transitive newer_first.
Proof. intros a b c. unfold newer_first. lia. Qed.

Definition sort_createdAt_desc (l : list (string * Doc)) : list (string * Doc) :=
  merge_sort newer_first l.

End Article.

(** ** Contact messages *)

(** The four fields both contact routes pass to the Contact model. *)
Record ContactFields := {
  name : option string;
  contact_email : option string;
  subject : option string;
  message : option string
}.

(** ** Responses *)

(** The objects the handlers pass to [res.json]. *)
Inductive Reply :=
| ArticleList (status : string) (results : nat) (articles : list (string * Article.Doc))
    (* { status, results, data: { articles } } *)
| ArticleOne (status : string) (article : string * Article.Doc)
    (* { status, data: { article } } *)
| NoData (status : string)
    (* { status, data: null } *)
| TokenReply (status : string) (token : string)
    (* { status, token } *)
| MessageOnly (message : string)
    (* { message } *)
| MessageWithData (message : string) (data : string * ContactFields)
    (* { message, data } *)
| ErrorOnly (error : string)
    (* { error } *)
| Failure (status : string) (message : string).
    (* { status, message } *)

(** What a middleware or a handler does with a request: [next()] hands
    the request on, [next(err)] skips to the error handler, and
    [res.status(code).json(payload)] answers. *)
Inductive Outcome (B : Type) :=
| Next (req : Request B)
| NextErr (err : Err)
| Json (code : Z) (payload : Reply).
Arguments Next {B} _.
Arguments NextErr {B} _.
Arguments Json {B} _ _.

(** What the client receives. *)
Record Response := { code : Z; sent : option Reply }.

(** Express's [res.json], through [res.send]: a response with status 204
    or 304 is sent without its payload. *)
Definition send (status : Z) (payload : Reply) : Response :=
  {| code := status;
     sent := if bool_decide (status = 204 ∨ status = 304) then None
             else Some payload |}.

Section error_handler.
(** The wording of the two messages the handler does not take from the
    error. *)
Variable invalid_token_message : string.
Variable unexpected_message : string.

(** Modelled from the spec: middleware/error.js, the Error Normalizer
    that app.js installs after the routes, is not among the sources.
    It maps a failure kind to a status and a body [{status, message}]:
    an operational error keeps the status and message it was built with,
    a token that fails verification is Unauthenticated (401), a schema
    violation is ValidationFailed (400) and carries the descriptions of
    the violated fields, as the message of the error has them, and
    anything else is Unexpected (500) with a generic message. The
    [status] word of the body is "fail" for a 4xx status and "error"
    otherwise. *)
Definition status_word (status : Z) : string :=
  if bool_decide (400 ≤ status < 500) then "fail" else "error".

Definition errorHandler (e : Err) : Response :=
  match e with
  | AppError m status =>
      {| code := status; sent := Some (Failure (status_word status) m) |}
  | JwtError _ =>
      {| code := 401; sent := Some (Failure "fail" invalid_token_message) |}
  | ValidationError m _ =>
      {| code := 400; sent := Some (Failure "fail" m) |}
  | TypeError _ | StoreError _ =>
      {| code := 500; sent := Some (Failure "error" unexpected_message) |}
  end.

(** The response a request ends with, when this stage ends it. *)
Definition respond {B} (o : Outcome B) : option Response :=
  match o with
  | Next _ => None
  | NextErr e => Some (errorHandler e)
  | Json status payload => Some (send status payload)
  end.
End error_handler.

(** Modelled from the spec: utils/catchAsync is not among the sources.
    A failure raised by a handler is raised up to the error handler,
    never swallowed: the rejection of the handler's promise goes to
    [next]. *)
Definition catchAsync {B} (r : Err + Outcome B) : Outcome B :=
  match r with
  | inl e => NextErr e
  | inr o => o
  end.

(** ** middleware/auth.js *)

Module Auth.

(** The calls the middleware makes to its collaborators, in order. *)
Inductive Call :=
| Verify (token secret : string)
| FindById (id : string).

(** The payload [jwt.verify] returns; only [id] is read. *)
Record Decoded := { id : string }.

(** Step 1 of the middleware: [token] stays [undefined] unless the
    header is present, non-empty and starts with "Bearer"; then it is
    the second piece of the header split at spaces, [undefined] when
    there is no second piece. *)
Definition token_of (h : Headers) : option string :=
  match authorization h with
  | Some a =>
      if JS.truthy a && JS.startsWith a "Bearer"
      then JS.split " "%char a !! 1%nat
      else None
  | None => None
  end.

Definition not_logged_in : Err :=
  AppError "You are not logged in! Please log in to get access." 401.

Definition user_gone : Err :=
  AppError "The user belonging to this token no longer exists." 401.

Section middleware.
(** [process.env.JWT_SECRET], [jwt.verify] (which throws on a bad
    signature or an expired token) and [User.findById] (whose promise
    resolves to the user or to [null], or rejects). *)
Variable JWT_SECRET : string.
Variable jwt_verify : string → string → JwtFailure + Decoded.
Variable User_findById : string → StoreFailure + option User.

(** [module.exports = async (req, res, next) => ...]: the outcome and
    the collaborator calls made on the way. The [catch] clause hands
    whatever was thrown to [next]. *)
Definition auth {B} (req : Request B) : Outcome B * list Call :=
  let token := token_of (headers req) in
  if negb (JS.truthy_opt token) then (NextErr not_logged_in, [])
  else
    let token := default EmptyString token in
    match jwt_verify token JWT_SECRET with
    | inl thrown => (NextErr (JwtError thrown), [Verify token JWT_SECRET])
    | inr decoded =>
        let calls := [Verify token JWT_SECRET; FindById (id decoded)] in
        match User_findById (id decoded) with
        | inl rejected => (NextErr (StoreError rejected), calls)
        | inr None => (NextErr user_gone, calls)
        | inr (Some currentUser) => (Next (set_user currentUser req), calls)
        end
    end.
End middleware.

Definition forbidden : Err :=
  AppError "You do not have permission to perform this action" 403.

(** [exports.restrictTo = (...roles) => (req, res, next) => ...].
    Reading [req.user.role] when [req.user] is [undefined] throws a
    [TypeError], which Express hands to [next]. *)
Definition restrictTo {B} (roles : list string) (req : Request B) : Outcome B :=
  match user req with
  | None =>
      NextErr (TypeError "Cannot read properties of undefined (reading 'role')")
  | Some u =>
      if negb (JS.includes roles (role u)) then NextErr forbidden
      else Next req
  end.

End Auth.

(** ** controllers/articleController.js *)

Module Controller.
Import Article.

Definition not_found : Err := AppError "No article found with that ID" 404.

(** [getAllArticles]: a query parameter is put in the filter only when
    it is truthy. *)
Definition filter_of (q : Query) : Filter :=
  {| f_category := if truthy_value (q_category q) then q_category q else None;
     f_language := if truthy_value (q_language q) then q_language q else None |}.

Section handlers.
(** The casts of the store, see [Article.findById] and [Article.find].
    In every handler [outage] is the failure the store answers the call
    of the handler with, if any. *)
Variable castObjectId : string → option string.
Variable castFilter : QueryValue → StoreFailure + (string → bool).

(** [exports.getAllArticles] *)

Definition getAllArticles {B} (outage : option StoreFailure) (req : Request B)
    (db : gmap string Doc) : Outcome B :=
  let filter := filter_of (query req) in
  catchAsync
    match find castFilter outage filter db with
    | inl thrown => inl thrown
    | inr found =>
        let articles := sort_createdAt_desc found in
        inr (Json 200 (ArticleList "success" (length articles) articles))
    end.

(** [exports.getArticle] *)
Definition getArticle {B} (outage : option StoreFailure) (req : Request B)
    (db : gmap string Doc) : Outcome B :=
  catchAsync
    match findById castObjectId outage (params_id req) db with
    | inl thrown => inl thrown
    | inr None => inr (NextErr not_found)
    | inr (Some article) => inr (Json 200 (ArticleOne "success" article))
    end.

(** [exports.deleteArticle]: the outcome and the collection afterwards. *)
Definition deleteArticle {B} (outage : option StoreFailure) (req : Request B)
    (db : gmap string Doc) : Outcome B * gmap string Doc :=
  let '(article, db') :=
    findByIdAndDelete castObjectId outage (params_id req) db in
  (catchAsync
     match article with
     | inl thrown => inl thrown
     | inr None => inr (NextErr not_found)
     | inr (Some _) => inr (Json 204 (NoData "success"))
     end,
   db').
End handlers.

Section create.
(** The parameters of the schema, see [Article.validate], and the
    identifier the driver generates for the new document. *)
Variable isURL : string → bool.
Variable now : Z.
Variable summary : gmap string string → string.
Variable oid : string.

(** [exports.createArticle]: the outcome and the collection afterwards. *)

Definition createArticle (outage : option StoreFailure)
    (req : Request Payload) (db : gmap string Doc)
  : Outcome Payload * gmap string Doc :=
  let '(created, db') := create isURL now summary oid outage (body req) db in
  (catchAsync
     match created with
     | inl thrown => inl thrown
     | inr newArticle => inr (Json 201 (ArticleOne "success" newArticle))
     end,
   db').
End create.

End Controller.

(** ** controllers/articleController.js: updateArticle *)

Module Update.
Import Article.

(** An update validator runs only on a path the update sets. *)
Definition on_set {A C} (v : option A) (check : A → Checked C)
  : Checked (option C) :=
  match v with
  | None => inr None
  | Some a =>
      match check a with
      | inl msg => inl msg
      | inr c => inr (Some c)
      end
  end.

(** The document after the paths an update sets have been written. *)
Definition merge (doc : Doc) (u : Payload) : Doc :=
  {| title := default (title doc) (p_title u);
     content := default (content doc) (p_content u);
     category := default (category doc) (p_category u);
     readTime := default (readTime doc) (p_readTime u);
     language := default (language doc) (p_language u);
     imageUrl := from_option Some (imageUrl doc) (p_imageUrl u);
     externalLink := from_option Some (externalLink doc) (p_externalLink u);
     createdAt := default (createdAt doc) (p_createdAt u);
     updatedAt := from_option Some (updatedAt doc) (p_updatedAt u) |}.

Section update.
Variable isURL : string → bool.
Variable summary : gmap string string → string.
Variable castObjectId : string → option string.

Definition update_failed (vs : gmap string string) : Err :=
  ValidationError ("Validation failed: " +:+ summary vs) vs.

(** [runValidators: true]: the setters and the validators of
    [articleSchema], on the paths the update sets and on no other. *)
Definition validate_update (p : Payload) : Err + Payload :=
  let r_title :=
    on_set (JS.trim <$> p_title p)
      (λ t, and_then (required "Please provide a title" (Some t))
                     (maxlength 100 "Title cannot exceed 100 characters")) in
  let r_content :=
    on_set (JS.trim <$> p_content p)
      (λ c, required "Please provide content" (Some c)) in
  let r_category :=
    on_set (p_category p)
      (λ c, and_then (required "Please select a category" (Some c))
                     (enum categories (λ _, "Please select a valid category"))) in
  let r_language :=
    on_set (p_language p)
      (λ l, and_then (required "Please select language" (Some l))
                     (enum languages (default_enum_message "language"))) in
  let r_imageUrl :=
    validate_with isURL "Please provide a valid URL" (p_imageUrl p) in
  let r_externalLink :=
    validate_with isURL "Please provide a valid URL" (p_externalLink p) in
  match r_title, r_content, r_category, r_language, r_imageUrl,
        r_externalLink with
  | inr t, inr c, inr cat, inr l, inr img, inr ext =>
      inr {| p_title := t; p_content := c; p_category := cat;
             p_readTime := p_readTime p; p_language := l;
             p_imageUrl := img; p_externalLink := ext;
             p_createdAt := p_createdAt p; p_updatedAt := p_updatedAt p |}
  | _, _, _, _, _, _ =>
      inl (update_failed
             (violation "title" r_title ∪ violation "content" r_content ∪
              violation "category" r_category ∪
              violation "language" r_language ∪
              violation "imageUrl" r_imageUrl ∪
              violation "externalLink" r_externalLink))
  end.

(** [Article.findByIdAndUpdate(id, body, { new: true, runValidators:
    true })]: the identifier is cast and the update validated before
    the store is asked; then the document, if there is one, is
    rewritten and returned as it is after the update. *)
Definition findByIdAndUpdate (outage : option StoreFailure) (id : string)
    (p : Payload) (db : gmap string Doc)
  : (Err + option (string * Doc)) * gmap string Doc :=
  match castObjectId id with
  | None => (inl (StoreError (cast_error id)), db)
  | Some oid =>
      match validate_update p with
      | inl e => (inl e, db)
      | inr u =>
          match outage with
          | Some failure => (inl (StoreError failure), db)
          | None =>
              match db !! oid with
              | None => (inr None, db)
              | Some doc =>
                  (inr (Some (oid, merge doc u)), <[oid := merge doc u]> db)
              end
          end
      end
  end.

(** [exports.updateArticle]: the outcome and the collection afterwards. *)
Definition updateArticle (outage : option StoreFailure)
    (req : Request Payload) (db : gmap string Doc)
  : Outcome Payload * gmap string Doc :=
  let '(found, db') :=
    findByIdAndUpdate outage (params_id req) (body req) db in
  (catchAsync
     match found with
     | inl thrown => inl thrown
     | inr None => inr (NextErr Controller.not_found)
     | inr (Some article) => inr (Json 200 (ArticleOne "success" article))
     end,
   db').
End update.

End Update.

(** ** The two contact routes *)

Module Contact.

(** A line written with [console.error]. *)
Record LogLine := { label : string; logged : Err }.

Section routes.
(** models/Contact.js is not among the sources: saving a new contact
    document either stores it under a fresh identifier or rejects (a
    schema violation, a failure of the store). *)
Variable Contact_create :
  ContactFields → gmap string ContactFields →
  Err + (string * ContactFields) * gmap string ContactFields.

(** routes/contactRoutes.js, [router.post('/')]: the outcome, the
    collection afterwards and what was logged. *)
Definition post_contact (req : Request ContactFields)
    (db : gmap string ContactFields)
  : Outcome ContactFields * gmap string ContactFields * list LogLine :=
  let fields :=
    {| name := name (body req); contact_email := contact_email (body req);
       subject := subject (body req); message := message (body req) |} in
  match Contact_create fields db with
  | inr (_, db') =>
      (Json 201
         (MessageOnly "Thank you for your message! We will get back to you soon."),
       db', [])
  | inl error =>
      (Json 500 (MessageOnly "Something went wrong. Please try again later."),
       db, [{| label := "Error saving contact:"; logged := error |}])
  end.

(** The other contact route (the unnamed source file, headed
    "routes/contactRoutes.js"), [router.post('/')]. *)
Definition post_contact_draft (req : Request ContactFields)
    (db : gmap string ContactFields)
  : Outcome ContactFields * gmap string ContactFields :=
  match Contact_create (body req) db with
  | inr (newContact, db') =>
      (Json 201 (MessageWithData "Message received!" newContact), db')
  | inl err => (Json 400 (ErrorOnly (err_message err)), db)
  end.
End routes.

End Contact.

(** ** Login *)

Module Login.

Section login.
(** The check of a password against a stored credential hash, the
    signing of a token for a user identifier, and the wording of the
    failure. *)
Variable correctPassword : string → string → bool.
Variable signToken : string → string.
Variable incorrect_message : string.

(** [User.findOne({ email })] *)
Definition findByEmail (e : string) (users : gmap string User) : option User :=
  snd <$> List.find (λ u, bool_decide (email u.2 = e)) (map_to_list users).

(** Modelled from the spec: controllers/authController.js, the Login
    handler behind POST /auth/login, is not among the sources. It takes
    credentials, verifies them against the stored credential hash and on
    success issues a new token; on mismatch it fails with
    Unauthenticated regardless of which field was wrong, without
    distinguishing an unknown user from a wrong password. *)
Definition login {B} (credentials : string * string) (users : gmap string User)
  : Outcome B :=
  let '(e, pw) := credentials in
  match findByEmail e users with
  | Some u =>
      if correctPassword pw (password u)
      then Json 200 (TokenReply "success" (signToken (user_id u)))
      else NextErr (AppError incorrect_message 401)
  | None => NextErr (AppError incorrect_message 401)
  end.
End login.

End Login.

(** ** Middleware in sequence *)

(** Express runs the middleware of a route in order: [next()] hands the
    request to the one that follows, [next(err)] and an answer end the
    sequence. *)
Definition and_next {B} (o : Outcome B) (k : Request B → Outcome B) : Outcome B :=
  match o with
  | Next req => k req
  | NextErr e => NextErr e
  | Json status payload => Json status payload
  end.

(** ** The contact form of the page *)

Module Frontend.

(** What the visitor is shown after a submit, whether the form was
    reset, and what went to the console. *)
Record Shown := {
  alert : string;
  form_reset : bool;
  console : list Err
}.

(** [response.ok] *)
Definition ok (r : Response) : bool := bool_decide (200 ≤ code r ≤ 299).

(** The submit listener of [contact-form]: [fetch] posts the four
    values of the form to /contact and resolves to the response, or
    rejects when the server cannot be reached. *)
Definition submit (fetch : ContactFields → Err + Response)
    (name_value email_value subject_value message_value : string) : Shown :=
  let formData :=
    {| name := Some name_value; contact_email := Some email_value;
       subject := Some subject_value; message := Some message_value |} in
  match fetch formData with
  | inr response =>
      if ok response
      then {| alert := "Your question has been submitted successfully!";
              form_reset := true; console := [] |}
      else {| alert := "There was an error submitting your question.";
              form_reset := false; console := [] |}
  | inl error =>
      {| alert := "Network error - please try again later.";
         form_reset := false; console := [error] |}
  end.

End Frontend.

(** ** Vocabulary of the properties *)


(** The pieces of a string between the characters [sep] holds of. *)
Fixpoint pieces (sep : ascii → bool) (s : string) : list string :=
  match s with
  | EmptyString => [EmptyString]
  | String c rest =>
      if sep c then EmptyString :: pieces sep rest
      else match pieces sep rest with
           | [] => [String c EmptyString]
           | piece :: others => String c piece :: others
           end
  end.


Section auth_cases.
Variable JWT_SECRET : string.
Variable jwt_verify : string → string → JwtFailure + Auth.Decoded.
Variable User_findById : string → StoreFailure + option User.
Context {B : Type}.

(** The credential the middleware goes on with: the token taken from
    the header, when it is not empty. *)
Definition credential (req : Request B) : option string :=
  match Auth.token_of (headers req) with
  | Some (String c t) => Some (String c t)
  | _ => None
  end.

Definition no_credential (req : Request B) : Prop := credential req = None.

Definition verification_fails (req : Request B) : Prop :=
  ∃ token thrown,
    credential req = Some token ∧ jwt_verify token JWT_SECRET = inl thrown.

Definition user_missing (req : Request B) : Prop :=
  ∃ token decoded,
    credential req = Some token ∧
    jwt_verify token JWT_SECRET = inr decoded ∧
    User_findById (Auth.id decoded) = inr None.

Definition lookup_fails (req : Request B) (rejected : StoreFailure) : Prop :=
  ∃ token decoded,
    credential req = Some token ∧
    jwt_verify token JWT_SECRET = inr decoded ∧
    User_findById (Auth.id decoded) = inl rejected.

Definition user_resolved (req : Request B) (u : User) : Prop :=
  ∃ token decoded,
    credential req = Some token ∧
    jwt_verify token JWT_SECRET = inr decoded ∧
    User_findById (Auth.id decoded) = inr (Some u).
End auth_cases.

(** An outcome that fails with the given HTTP status without reaching
    the handler: the request goes to the error handler, which answers
    with that status. *)
Definition fails_with {B} (m_token m_generic : string) (status : Z)
    (o : Outcome B) : Prop :=
  ∃ e, o = NextErr e ∧ code (errorHandler m_token m_generic e) = status.




(** A query parameter that is absent or the empty string. *)
Definition absent_or_empty (v : option QueryValue) : Prop :=
  v = None ∨ v = Some (QString EmptyString).

(** Two parameters that differ only in being absent or empty. *)
Definition same_parameter (v w : option QueryValue) : Prop :=
  v = w ∨ (absent_or_empty v ∧ absent_or_empty w).

(** A query parameter that is a non-empty string. *)
Definition non_empty_string (v : option QueryValue) : Prop :=
  ∃ s, v = Some (QString s) ∧ s ≠ EmptyString.

Section listing.
Variable castFilter : QueryValue → StoreFailure + (string → bool).

(** A query parameter the store can make a condition of: an absent one,
    a string, and an array or an object the cast of the query accepts. *)
Definition castable (v : option QueryValue) : Prop :=
  match v with
  | None | Some (QString _) => True
  | Some other => ∃ test, castFilter other = inr test
  end.

(** A query parameter whose cast the store rejects with [failure]. *)
Definition uncastable (v : option QueryValue) (failure : StoreFailure) : Prop :=
  match v with
  | None | Some (QString _) => False
  | Some other => castFilter other = inl failure
  end.

(** What a query parameter asks of the field [x] of a record: nothing
    when it is absent or empty, equality when it is another string, and
    for an array or an object the test its cast gives. *)
Definition asks (v : option QueryValue) (x : string) : Prop :=
  match v with
  | None | Some (QString EmptyString) => True
  | Some (QString c) => x = c
  | Some other => ∃ test, castFilter other = inr test ∧ test x = true
  end.

(** A record a list request asks for. *)
Definition requested (q : Query) (d : Article.Doc) : Prop :=
  asks (q_category q) (Article.category d) ∧
  asks (q_language q) (Article.language d).
End listing.

(** The message the validators of a path report, if any. *)
Definition reported {A} (r : Article.Checked A) : option string :=
  match r with
  | inl msg => Some msg
  | inr _ => None
  end.

(** Whether a character occurs in a string. *)
Fixpoint occurs (c : ascii) (s : string) : bool :=
  match s with
  | EmptyString => false
  | String a rest => Ascii.eqb a c || occurs c rest
  end.

(** What [articleSchema] demands of a stored article. *)
Definition well_formed (isURL : string → bool) (d : Article.Doc) : Prop :=
  Article.title d ≠ EmptyString ∧
  (JS.length (Article.title d) ≤ 100)%nat ∧
  JS.trim (Article.title d) = Article.title d ∧
  Article.content d ≠ EmptyString ∧
  JS.trim (Article.content d) = Article.content d ∧
  Article.category d ∈ Article.categories ∧
  Article.language d ∈ Article.languages ∧
  (∀ u, Article.imageUrl d = Some u → isURL u = true) ∧
  (∀ u, Article.externalLink d = Some u → isURL u = true).

(** A value that is missing or white space only. *)
Definition blank (v : option string) : Prop :=
  from_option (λ s, JS.all_space s = true) True v.

(** A create payload that meets every demand of [articleSchema]. *)
Definition acceptable (isURL : string → bool) (p : Article.Payload) : Prop :=
  (∃ t, Article.p_title p = Some t ∧ JS.all_space t = false ∧
        (JS.length (JS.trim t) ≤ 100)%nat) ∧
  (∃ c, Article.p_content p = Some c ∧ JS.all_space c = false) ∧
  (∃ c, Article.p_category p = Some c ∧ c ∈ Article.categories) ∧
  is_Some (Article.p_readTime p) ∧
  (∃ l, Article.p_language p = Some l ∧ l ∈ Article.languages) ∧
  (∀ u, Article.p_imageUrl p = Some u → isURL u = true) ∧
  (∀ u, Article.p_externalLink p = Some u → isURL u = true).

(** A request that differs from [req] in its [params.id] and its body. *)
Definition readdressed {B C} (req : Request B) (id : string) (b : C) : Request C :=
  {| headers := headers req; user := user req; params_id := id;
     query := query req; body := b |}.

(** The response of a contact route to the fields a page posts, and the
    collection afterwards. *)
Definition serve_contact
    (route : Request ContactFields → gmap string ContactFields →
             Outcome ContactFields * gmap string ContactFields)
    (db : gmap string ContactFields) (fields : ContactFields)
  : option Response * gmap string ContactFields :=
  let '(o, db') :=
    route {| headers := {| authorization := None |}; user := None;
             params_id := EmptyString;
             query := {| q_category := None; q_language := None |};
             body := fields |} db in
  (respond EmptyString EmptyString o, db').

(** [fetch] against a server that runs the given contact route: it
    resolves to the response of the route. *)
Definition fetch_from
    (route : Request ContactFields → gmap string ContactFields →
             Outcome ContactFields * gmap string ContactFields)
    (db : gmap string ContactFields) (fields : ContactFields)
  : Err + Response :=
  match (serve_contact route db fields).1 with
  | Some response => inr response
  | None => inl (TypeError "Failed to fetch")
  end.

(** ** Sample data *)

Module Sample.

Definition admin : User :=
  {| user_id := "u1"; email := "admin@agrihealth.africa";
     password := "hash:s3cret"; role := "admin" |}.

Definition request {B} (auth : option string) (u : option User) (id : string)
    (q : Query) (b : B) : Request B :=
  {| headers := {| authorization := auth |}; user := u; params_id := id;
     query := q; body := b |}.

Definition no_query : Query := {| q_category := None; q_language := None |}.

Definition query (c l : option QueryValue) : Query :=
  {| q_category := c; q_language := l |}.

(** A verifier that accepts the token "good" for user "u1". *)
Definition verify (token secret : string) : JwtFailure + Auth.Decoded :=
  if bool_decide (token = "good") then inr {| Auth.id := "u1" |}
  else inl (JsonWebTokenError "invalid signature").

(** A user collection that holds [admin] only. *)
Definition findById (id : string) : StoreFailure + option User :=
  inr (if bool_decide (id = "u1") then Some admin else None).

(** A collection that cannot be reached. *)
Definition unreachable : StoreFailure :=
  {| failure_name := "MongoNetworkError";
     failure_message := "connection timed out" |}.

Definition findById_down (id : string) : StoreFailure + option User :=
  inl unreachable.


Definition is_hex (c : ascii) : bool :=
  let n := nat_of_ascii c in
  bool_decide (48 ≤ n ≤ 57)%nat || bool_decide (97 ≤ n ≤ 102)%nat.

Fixpoint all_hex (s : string) : bool :=
  match s with
  | EmptyString => true
  | String c rest => is_hex c && all_hex rest
  end.

(** A cast that takes the 24 hexadecimal digits of an ObjectId, in
    lower case, and nothing else. *)
Definition castObjectId (id : string) : option string :=
  if bool_decide (String.length id = 24%nat) && all_hex id then Some id
  else None.

Fixpoint strings_of (items : list QueryValue) : option (list string) :=
  match items with
  | [] => Some []
  | QString s :: rest => (λ l, s :: l) <$> strings_of rest
  | _ :: _ => None
  end.

Definition not_a_string : StoreFailure :=
  {| failure_name := "CastError";
     failure_message := "Cast to string failed at path category" |}.

(** A cast that takes an array of strings for a choice among them, and
    rejects any other array and every object. *)
Definition castFilter (v : QueryValue) : StoreFailure + (string → bool) :=
  match v with
  | QArray items =>
      match strings_of items with
      | Some choice => inr (λ x, bool_decide (x ∈ choice))
      | None => inl not_a_string
      end
  | _ => inl not_a_string
  end.

(** The violations as "path: message", joined by commas. *)
Definition summary (vs : gmap string string) : string :=
  String.concat ", " ((λ v, v.1 +:+ ": " +:+ v.2) <$> map_to_list vs).

Definition storage_id : string := "65a1f0c2b3d4e5f6a7b8c9d1".
Definition hygiene_id : string := "65a1f0c2b3d4e5f6a7b8c9d2".
Definition fresh_id : string := "65a1f0c2b3d4e5f6a7b8c9d3".

Definition storage_guide : Article.Doc :=
  {| Article.title := "Storing pesticides safely";
     Article.content := "Keep chemicals locked away from food and water.";
     Article.category := "Chemical Safety"; Article.readTime := 5;
     Article.language := "English"; Article.imageUrl := None;
     Article.externalLink := None; Article.createdAt := 1700000000000;
     Article.updatedAt := None |}.

Definition hygiene_guide : Article.Doc :=
  {| Article.title := "Laver les mains";
     Article.content := "Se laver les mains avant chaque repas.";
     Article.category := "Hygiene"; Article.readTime := 3;
     Article.language := "Français"; Article.imageUrl := None;
     Article.externalLink := None; Article.createdAt := 1700000500000;
     Article.updatedAt := None |}.

Definition articles : gmap string Article.Doc :=
  <[storage_id := storage_guide]> (<[hygiene_id := hygiene_guide]> ∅).


Definition isURL (s : string) : bool := String.prefix "http" s.

Definition users : gmap string User := <["u1" := admin]> ∅.

(** A credential check that compares with the text after "hash:". *)
Definition correctPassword (candidate stored : string) : bool :=
  bool_decide (stored = "hash:" +:+ candidate).

Definition signToken (id : string) : string := "token-for-" +:+ id.




(** An acceptable payload, its title padded with a no-break space, a
    space and a tab. *)
Definition beans : Article.Payload :=
  {| Article.p_title :=
       Some (JS.of_bytes [194; 160; 32]%nat +:+ "Eating well" +:+
             JS.of_bytes [9]%nat);
     Article.p_content := Some "Beans and greens every day.";
     Article.p_category := Some "Nutrition"; Article.p_readTime := Some 4;
     Article.p_language := Some "English";
     Article.p_imageUrl := Some "https://example.org/beans.png";
     Article.p_externalLink := None; Article.p_createdAt := None;
     Article.p_updatedAt := None |}.

(** The article the schema builds from [beans] at time 1700000900000. *)
Definition beans_doc : Article.Doc :=
  {| Article.title := "Eating well";
     Article.content := "Beans and greens every day.";
     Article.category := "Nutrition"; Article.readTime := 4;
     Article.language := "English";
     Article.imageUrl := Some "https://example.org/beans.png";
     Article.externalLink := None; Article.createdAt := 1700000900000;
     Article.updatedAt := None |}.

(** A payload with a title that is a no-break space, no read time and an
    unknown language. *)
Definition incomplete : Article.Payload :=
  {| Article.p_title := Some (JS.of_bytes [194; 160]%nat);
     Article.p_content := Some "Text";
     Article.p_category := Some "Hygiene"; Article.p_readTime := None;
     Article.p_language := Some "Spanish"; Article.p_imageUrl := None;
     Article.p_externalLink := None; Article.p_createdAt := None;
     Article.p_updatedAt := None |}.

Definition incomplete_violations : gmap string string :=
  {[ "title" := "Please provide a title";
     "readTime" := "Please provide estimated read time";
     "language" := "`Spanish` is not a valid enum value for path `language`." ]}.

(** An update that sets the title and the language only. *)
Definition retitle : Article.Payload :=
  {| Article.p_title := Some "  Safe storage  "; Article.p_content := None;
     Article.p_category := None; Article.p_readTime := None;
     Article.p_language := Some "Swahili"; Article.p_imageUrl := None;
     Article.p_externalLink := None; Article.p_createdAt := None;
     Article.p_updatedAt := None |}.

Definition retitled : Article.Doc :=
  {| Article.title := "Safe storage";
     Article.content := "Keep chemicals locked away from food and water.";
     Article.category := "Chemical Safety"; Article.readTime := 5;
     Article.language := "Swahili"; Article.imageUrl := None;
     Article.externalLink := None; Article.createdAt := 1700000000000;
     Article.updatedAt := None |}.

(** A title of 51 letters of two bytes each. *)
Definition accented_title : string :=
  String.concat EmptyString (replicate 51 "é").

Definition bearer_good : Request () :=
  request (Some "Bearer good") None "" no_query ().

End Sample.

(** * Properties *)

(** ** Strings *)

Lemma split_not_nil sep s : JS.split sep s ≠ [].
Proof. destruct s as [|c s]; simpl; [done|]. repeat case_match; done. Qed.




(** ** Trimming *)

Lemma append_cons x (a b : string) : String x a +:+ b = String x (a +:+ b).
Proof. reflexivity. Qed.

Lemma append_assoc (a b c : string) : (a +:+ b) +:+ c = a +:+ b +:+ c.
Proof. induction a as [|x a IH]; [done|]. by rewrite !append_cons, IH. Qed.

Lemma append_empty (a : string) : a +:+ EmptyString = a.
Proof. induction a as [|x a IH]; [done|]. by rewrite append_cons, IH. Qed.

Lemma strip_prefix_app p s r :
  JS.strip_prefix p s = Some r → s = p +:+ r.
Proof.
  revert s. induction p as [|a p IH]; intros s; simpl.
  - by intros [= ->].
  - destruct s as [|b s]; [done|].
    destruct (Ascii.eqb a b) eqn:Hab; [|done].
    apply Ascii.eqb_eq in Hab as ->. by intros ->%IH.
Qed.

Lemma strip_prefix_more p s r x :
  JS.strip_prefix p s = Some r → JS.strip_prefix p (s +:+ x) = Some (r +:+ x).
Proof.
  revert s. induction p as [|a p IH]; intros s; simpl.
  - by intros [= ->].
  - destruct s as [|b s]; [done|]. rewrite append_cons.
    destruct (Ascii.eqb a b); [apply IH|done].
Qed.

Lemma length_app_string (a b : string) :
  String.length (a +:+ b) = (String.length a + String.length b)%nat.
Proof.
  induction a as [|c a IH]; [done|]. rewrite append_cons. simpl. by rewrite IH.
Qed.

Lemma white_space_not_empty :
  Forall (λ w, (0 < String.length w)%nat) JS.white_space.
Proof. repeat constructor. Qed.

(** The encodings of two white space characters never start alike. *)
Lemma white_space_stripped :
  Forall (λ w, ∀ r, JS.strip_space (w +:+ r) = Some r) JS.white_space.
Proof. repeat constructor. Qed.

Lemma strip_space_Some s r :
  JS.strip_space s = Some r → ∃ w, w ∈ JS.white_space ∧ s = w +:+ r.
Proof.
  unfold JS.strip_space.
  induction JS.white_space as [|p ws IH]; simpl; [done|].
  destruct (JS.strip_prefix p s) as [rest|] eqn:Hp.
  - intros [= <-]. exists p. split; [left|by apply strip_prefix_app].
  - intros (w & ? & ?)%IH. exists w. split; [by right|done].
Qed.

Lemma strip_space_app w r :
  w ∈ JS.white_space → JS.strip_space (w +:+ r) = Some r.
Proof.
  intros Hw. by apply (proj1 (Forall_forall _ _) white_space_stripped w).
Qed.

Lemma strip_space_shorter s r :
  JS.strip_space s = Some r → (String.length r < String.length s)%nat.
Proof.
  intros (w & Hw & ->)%strip_space_Some. rewrite length_app_string.
  pose proof (proj1 (Forall_forall _ _) white_space_not_empty w Hw) as Hlen.
  simpl in Hlen. lia.
Qed.

Lemma strip_space_more s r x :
  JS.strip_space s = Some r → JS.strip_space (s +:+ x) = Some (r +:+ x).
Proof.
  intros (w & Hw & ->)%strip_space_Some.
  rewrite append_assoc. by apply strip_space_app.
Qed.

Lemma trimStart_go_enough n s :
  (String.length s ≤ n)%nat → JS.trimStart_go n s = JS.trimStart s.
Proof.
  unfold JS.trimStart. remember (String.length s) as m eqn:Hm.
  assert (String.length s ≤ m)%nat as Hle by lia. clear Hm.
  revert s n Hle. induction m as [|m IH]; intros s n Hs Hn.
  - destruct s; [|simpl in Hs; lia]. by destruct n.
  - destruct n as [|n].
    + destruct s; [|simpl in Hn; lia]. done.
    + simpl. destruct (JS.strip_space s) as [r|] eqn:Hr; [|done].
      apply strip_space_shorter in Hr.
      rewrite (IH r n) by lia.
      symmetry. apply (IH r m); lia.
Qed.

Lemma trimStart_strip s r :
  JS.strip_space s = Some r → JS.trimStart s = JS.trimStart r.
Proof.
  intros Hr. unfold JS.trimStart at 1.
  destruct (String.length s) as [|n] eqn:Hn.
  - apply strip_space_shorter in Hr. lia.
  - simpl. rewrite Hr. apply trimStart_go_enough.
    apply strip_space_shorter in Hr. lia.
Qed.

Lemma trimStart_fixed s : JS.strip_space s = None → JS.trimStart s = s.
Proof.
  intros Hs. unfold JS.trimStart.
  destruct (String.length s); simpl; [done|]. by rewrite Hs.
Qed.

(** What [trimStart] leaves does not start with white space. *)
Lemma trimStart_done s : JS.strip_space (JS.trimStart s) = None.
Proof.
  remember (String.length s) as m eqn:Hm.
  assert (String.length s ≤ m)%nat as Hle by lia. clear Hm.
  revert s Hle. induction m as [|m IH]; intros s Hs.
  - destruct s; [done|simpl in Hs; lia].
  - destruct (JS.strip_space s) as [r|] eqn:Hr.
    + rewrite (trimStart_strip _ _ Hr). apply IH.
      apply strip_space_shorter in Hr. lia.
    + by rewrite trimStart_fixed.
Qed.

Lemma trimStart_idem s : JS.trimStart (JS.trimStart s) = JS.trimStart s.
Proof. apply trimStart_fixed, trimStart_done. Qed.

(** [trimStart] removes a prefix that is white space. *)
Lemma trimStart_split s :
  ∃ spaces, s = spaces +:+ JS.trimStart s ∧ JS.all_space spaces = true.
Proof.
  remember (String.length s) as m eqn:Hm.
  assert (String.length s ≤ m)%nat as Hle by lia. clear Hm.
  revert s Hle. induction m as [|m IH]; intros s Hs.
  - destruct s; [by exists EmptyString|simpl in Hs; lia].
  - destruct (JS.strip_space s) as [r|] eqn:Hr.
    + pose proof (strip_space_shorter _ _ Hr) as Hlen.
      destruct (IH r) as (spaces & Hsp & Hall); [lia|].
      apply strip_space_Some in Hr as (w & Hw & ->).
      exists (w +:+ spaces). split.
      * rewrite (trimStart_strip _ _ (strip_space_app w r Hw)), append_assoc.
        by rewrite <- Hsp.
      * unfold JS.all_space in *.
        by rewrite (trimStart_strip _ _ (strip_space_app w spaces Hw)).
    + exists EmptyString. by rewrite trimStart_fixed.
Qed.

Lemma all_space_app a b :
  JS.all_space a = true → JS.all_space b = true → JS.all_space (a +:+ b) = true.
Proof.
  remember (String.length a) as m eqn:Hm.
  assert (String.length a ≤ m)%nat as Hle by lia. clear Hm.
  revert a Hle. induction m as [|m IH]; intros a Ha Hall Hb.
  - destruct a; [done|simpl in Ha; lia].
  - destruct (JS.strip_space a) as [r|] eqn:Hr.
    + pose proof (strip_space_shorter _ _ Hr) as Hlen.
      unfold JS.all_space in *.
      rewrite (trimStart_strip _ _ (strip_space_more _ _ b Hr)).
      rewrite (trimStart_strip _ _ Hr) in Hall.
      apply (IH r); [lia|done..].
    + unfold JS.all_space in Hall. rewrite trimStart_fixed in Hall by done.
      by destruct a.
Qed.

(** [trimEnd] removes a suffix that is white space. *)
Lemma trimEnd_split s :
  ∃ spaces, s = JS.trimEnd s +:+ spaces ∧ JS.all_space spaces = true.
Proof.
  induction s as [|c s (spaces & Hs & Hall)]; [by exists EmptyString|].
  cbn [JS.trimEnd].
  destruct (JS.all_space (String c s)) eqn:Hc.
  - by exists (String c s).
  - exists spaces. split; [|done]. by rewrite append_cons, <- Hs.
Qed.

Lemma trimEnd_idem s : JS.trimEnd (JS.trimEnd s) = JS.trimEnd s.
Proof.
  induction s as [|c s IH]; [done|]. cbn [JS.trimEnd].
  destruct (JS.all_space (String c s)) eqn:Hc; [done|].
  cbn [JS.trimEnd]. rewrite IH.
  destruct (JS.all_space (String c (JS.trimEnd s))) eqn:Hkept; [|done].
  destruct (trimEnd_split s) as (spaces & Hs & Hall).
  pose proof (all_space_app _ _ Hkept Hall) as Hwhole.
  rewrite append_cons, <- Hs in Hwhole. congruence.
Qed.

(** What [trimEnd] keeps of a string that does not start with white
    space does not start with white space either. *)
Lemma trimEnd_start s :
  JS.strip_space s = None → JS.strip_space (JS.trimEnd s) = None.
Proof.
  intros Hs. destruct (JS.strip_space (JS.trimEnd s)) as [r|] eqn:Hr; [|done].
  destruct (trimEnd_split s) as (spaces & Heq & _).
  apply (strip_space_more _ _ spaces) in Hr. rewrite <- Heq in Hr. congruence.
Qed.

(** Trimming twice is trimming once. *)
Lemma trim_idem s : JS.trim (JS.trim s) = JS.trim s.
Proof.
  unfold JS.trim.
  rewrite (trimStart_fixed (JS.trimEnd _))
    by apply trimEnd_start, trimStart_done.
  apply trimEnd_idem.
Qed.

(** A string trims to nothing exactly when it is white space only. *)
Lemma trim_all_space s : JS.trim s = EmptyString ↔ JS.all_space s = true.
Proof.
  unfold JS.trim, JS.all_space.
  pose proof (trimStart_idem s) as Hidem.
  destruct (JS.trimStart s) as [|c rest] eqn:Hstart; [done|].
  cbn [JS.trimEnd]. unfold JS.all_space. rewrite Hidem. done.
Qed.

(** [s.length] of a concatenation. *)
Lemma length_app a b : JS.length (a +:+ b) = (JS.length a + JS.length b)%nat.
Proof.
  induction a as [|c a IH]; [done|]. rewrite append_cons. simpl.
  rewrite IH. lia.
Qed.

(** Trimming never makes a string longer. *)
Lemma trim_length s : (JS.length (JS.trim s) ≤ JS.length s)%nat.
Proof.
  unfold JS.trim.
  destruct (trimStart_split s) as (before & Hs & _).
  destruct (trimEnd_split (JS.trimStart s)) as (after & Ht & _).
  rewrite Hs at 2. rewrite Ht at 2. rewrite !length_app. lia.
Qed.

(** ** The auth middleware *)

Section auth_facts.
Variable JWT_SECRET : string.
Variable jwt_verify : string → string → JwtFailure + Auth.Decoded.
Variable User_findById : string → StoreFailure + option User.
Variables m_token m_generic : string.
Context {B : Type}.

Local Abbreviation auth := (Auth.auth JWT_SECRET jwt_verify User_findById).
Local Abbreviation fails := (fails_with m_token m_generic).

(** The middleware, read by the credential it goes on with. *)
Lemma auth_by_credential (req : Request B) :
  auth req =
  match credential req with
  | None => (NextErr Auth.not_logged_in, [])
  | Some token =>
      match jwt_verify token JWT_SECRET with
      | inl thrown =>
          (NextErr (JwtError thrown), [Auth.Verify token JWT_SECRET])
      | inr decoded =>
          let calls :=
            [Auth.Verify token JWT_SECRET; Auth.FindById (Auth.id decoded)] in
          match User_findById (Auth.id decoded) with
          | inl rejected => (NextErr (StoreError rejected), calls)
          | inr None => (NextErr Auth.user_gone, calls)
          | inr (Some u) => (Next (set_user u req), calls)
          end
      end
  end.
Proof.
  unfold Auth.auth, credential.
  destruct (Auth.token_of (headers req)) as [[|c t]|]; reflexivity.
Qed.

(** The five ways through the middleware exclude one another and leave
    nothing out. *)
Lemma auth_cases_exhaustive (req : Request B) :
  no_credential req ∨
  verification_fails JWT_SECRET jwt_verify req ∨
  user_missing JWT_SECRET jwt_verify User_findById req ∨
  (∃ rejected, lookup_fails JWT_SECRET jwt_verify User_findById req rejected) ∨
  (∃ u, user_resolved JWT_SECRET jwt_verify User_findById req u).
Proof.
  unfold no_credential, verification_fails, user_missing, lookup_fails,
    user_resolved.
  destruct (credential req) as [token|]; [|by left].
  destruct (jwt_verify token JWT_SECRET) as [thrown|decoded] eqn:Hv;
    [right; left; eauto|].
  destruct (User_findById (Auth.id decoded)) as [rejected|[u|]] eqn:Hf;
    right; right; [right; left|right; right|left]; eauto 10.
Qed.

Lemma fails_with_NextErr (e : Err) status :
  fails status (NextErr e : Outcome B) ↔
  code (errorHandler m_token m_generic e) = status.
Proof.
  unfold fails_with. split.
  - by intros (e' & [= <-] & ?).
  - eauto.
Qed.

Lemma fails_with_Next (r : Request B) status : ¬ fails status (Next r).
Proof. by intros (e & ? & ?). Qed.

(** C1 (amended). The middleware fails with Unauthenticated (401),
    without reaching the handler, exactly when no bearer credential is
    taken from the authorization header, or verification of the token
    fails, or the token is valid and the lookup finds no user. When the
    token is valid and the lookup itself is rejected, the rejection goes
    to the error handler as it is (an Unexpected failure, 500) and the
    handler is not reached either. In the one remaining case the
    resolved user is attached to the request, which is passed on. *)
Theorem auth_contract (req : Request B) :
  let o := (auth req).1 in
  (fails 401 o ↔
     no_credential req ∨
     verification_fails JWT_SECRET jwt_verify req ∨
     user_missing JWT_SECRET jwt_verify User_findById req) ∧
  (∀ rejected,
     lookup_fails JWT_SECRET jwt_verify User_findById req rejected →
     o = NextErr (StoreError rejected) ∧ fails 500 o) ∧
  (∀ u,
     user_resolved JWT_SECRET jwt_verify User_findById req u →
     o = Next (set_user u req)) ∧
  ((∃ u, user_resolved JWT_SECRET jwt_verify User_findById req u) ∨
   (∃ rejected, lookup_fails JWT_SECRET jwt_verify User_findById req rejected) ∨
   fails 401 o).
Proof.
  cbv zeta. rewrite auth_by_credential.
  unfold no_credential, verification_fails, user_missing, lookup_fails,
    user_resolved.
  destruct (credential req) as [token|] eqn:Hc.
  2:{ simpl. split; [split|split; [|split]].
      - auto.
      - intros _. by apply fails_with_NextErr.
      - by intros ? (? & ? & [=] & _).
      - by intros ? (? & ? & [=] & _).
      - right; right. by apply fails_with_NextErr. }
  destruct (jwt_verify token JWT_SECRET) as [thrown|decoded] eqn:Hv.
  { simpl. split; [split|split; [|split]].
    - intros _. right; left. eauto.
    - intros _. by apply fails_with_NextErr.
    - intros ? (? & ? & [= <-] & ? & _); congruence.
    - intros ? (? & ? & [= <-] & ? & _); congruence.
    - right; right. by apply fails_with_NextErr. }
  destruct (User_findById (Auth.id decoded)) as [rejected|[u|]] eqn:Hf; simpl.
  - split; [split|split; [|split]].
    + intros H%fails_with_NextErr. done.
    + intros [[=]|[(? & ? & [= <-] & ?)|(? & ? & [= <-] & ? & ?)]];
        congruence.
    + intros ? (? & ? & [= <-] & ? & ?).
      split; [congruence|by apply fails_with_NextErr].
    + intros ? (? & ? & [= <-] & ? & ?). congruence.
    + right; left. eauto 10.
  - split; [split|split; [|split]].
    + by intros ?%fails_with_Next.
    + intros [[=]|[(? & ? & [= <-] & ?)|(? & ? & [= <-] & ? & ?)]];
        congruence.
    + intros ? (? & ? & [= <-] & ? & ?). congruence.
    + intros ? (? & ? & [= <-] & ? & ?). congruence.
    + left. eauto 10.
  - split; [split|split; [|split]].
    + intros _. right; right. eauto 10.
    + intros _. by apply fails_with_NextErr.
    + intros ? (? & ? & [= <-] & ? & ?). congruence.
    + intros ? (? & ? & [= <-] & ? & ?). congruence.
    + right; right. by apply fails_with_NextErr.
Qed.

End auth_facts.



(** C1 as first stated does not hold: with a valid token and a user
    collection that cannot be reached, none of the three conditions
    holds, and yet no user is attached and the request is not passed
    on; it ends in the error handler with status 500. *)
Lemma auth_lookup_rejected :
  let req := Sample.request (Some "Bearer good") None "" Sample.no_query () in
  let o := (Auth.auth "secret" Sample.verify Sample.findById_down req).1 in
  ¬ (no_credential req ∨
     verification_fails "secret" Sample.verify req ∨
     user_missing "secret" Sample.verify Sample.findById_down req) ∧
  (∀ r, o ≠ Next r) ∧
  o = NextErr (StoreError Sample.unreachable) ∧
  ¬ fails_with "Invalid token" "Something went wrong" 401 o.
Proof.
  cbv zeta. split; [|split; [|split]].
  - intros [H|[(t & e & H & Hv)|(t & d & H & Hv & Hf)]].
    + discriminate H.
    + injection H as <-. discriminate Hv.
    + discriminate Hf.
  - intros r. vm_compute. discriminate.
  - reflexivity.
  - intros (e & He & Hcode). vm_compute in He. injection He as <-.
    vm_compute in Hcode. discriminate Hcode.
Qed.

(** ** The role guard *)

(** C2. For a request that carries a resolved user, the role guard
    fails with Forbidden (403) if and only if the user's role is not in
    the allow-set; when the role is in the allow-set the very same
    request is passed on. The guard is a function of the allow-set and
    the request alone. *)
Theorem restrictTo_contract {B} (roles : list string) (req : Request B)
    (u : User) (m_token m_generic : string) :
  user req = Some u →
  (fails_with m_token m_generic 403 (Auth.restrictTo roles req) ↔
     role u ∉ roles) ∧
  (role u ∉ roles → Auth.restrictTo roles req = NextErr Auth.forbidden) ∧
  (role u ∈ roles → Auth.restrictTo roles req = Next req).
Proof.
  intros Hu. unfold Auth.restrictTo, JS.includes. rewrite Hu.
  destruct (decide (role u ∈ roles)) as [Hin|Hout].
  - rewrite bool_decide_eq_true_2 by done. simpl.
    split; [split|split]; try done.
    by intros ?%fails_with_Next.
  - rewrite bool_decide_eq_false_2 by done. simpl.
    split; [split|split]; try done.
    intros _. by apply fails_with_NextErr.
Qed.

(** C2, for an admin on a route restricted to admins and editors. *)
Lemma restrictTo_contract_witness :
  let req :=
    Sample.request None (Some Sample.admin) "" Sample.no_query () in
  (fails_with "Invalid token" "Something went wrong" 403
     (Auth.restrictTo ["admin"; "editor"] req) ↔
   role Sample.admin ∉ ["admin"; "editor"]) ∧
  (role Sample.admin ∉ ["admin"; "editor"] →
   Auth.restrictTo ["admin"; "editor"] req = NextErr Auth.forbidden) ∧
  (role Sample.admin ∈ ["admin"; "editor"] →
   Auth.restrictTo ["admin"; "editor"] req = Next req).
Proof.
  apply (restrictTo_contract ["admin"; "editor"]
           (Sample.request None (Some Sample.admin) "" Sample.no_query ())
           Sample.admin "Invalid token" "Something went wrong").
  reflexivity.
Defined.

(** ** The article schema *)

Section schema_facts.
Import Article.

Lemma required_spec msg v s :
  required msg v = inr s ↔ v = Some s ∧ s ≠ EmptyString.
Proof.
  destruct v as [[|c t]|]; simpl; split.
  - done.
  - by intros [[= <-] ?].
  - by intros [= <-].
  - by intros [[= <-] _].
  - done.
  - by intros [[=] _].
Qed.

Lemma checked_title msg msg' v t :
  and_then (required msg (JS.trim <$> v)) (maxlength 100 msg') = inr t ↔
  ∃ s, v = Some s ∧ JS.trim s = t ∧ t ≠ EmptyString ∧
       (JS.length t ≤ 100)%nat.
Proof.
  unfold and_then, maxlength. split.
  - destruct (required msg (JS.trim <$> v)) as [?|t'] eqn:Hreq; [done|].
    apply required_spec in Hreq as [Hv Hne].
    case_bool_decide; [|done]. intros [= <-].
    destruct v as [s|]; [|done]. injection Hv as <-. eauto.
  - intros (s & -> & <- & Hne & Hlen). simpl.
    destruct (JS.trim s) as [|c r] eqn:Htrim; [done|]. simpl.
    rewrite <- Htrim. by rewrite bool_decide_eq_true_2.
Qed.

Lemma checked_content msg v c :
  required msg (JS.trim <$> v) = inr c ↔
  ∃ s, v = Some s ∧ JS.trim s = c ∧ c ≠ EmptyString.
Proof.
  rewrite required_spec. destruct v as [s|]; simpl; split.
  - intros [[= <-] ?]. eauto.
  - by intros (s' & [= <-] & <- & ?).
  - by intros [[=] _].
  - by intros (s' & [=] & _).
Qed.

Lemma checked_enum msg msg' values v c :
  and_then (required msg v) (enum values msg') = inr c ↔
  v = Some c ∧ c ≠ EmptyString ∧ c ∈ values.
Proof.
  unfold and_then, enum, JS.includes. split.
  - destruct (required msg v) as [?|c'] eqn:Hreq; [done|].
    apply required_spec in Hreq as [-> Hne].
    case_bool_decide; [|done]. by intros [= <-].
  - intros (-> & Hne & Hin). destruct c as [|a r]; [done|]. simpl.
    by rewrite bool_decide_eq_true_2.
Qed.

Lemma checked_number msg v n : required_number msg v = inr n ↔ v = Some n.
Proof. destruct v; simpl; split; congruence. Qed.

Lemma checked_url (isURL : string → bool) msg v o :
  validate_with isURL msg v = inr o ↔
  o = v ∧ ∀ u, v = Some u → isURL u = true.
Proof.
  destruct v as [u|]; simpl.
  - destruct (isURL u) eqn:Hu; split.
    + intros [= <-]. split; [done|]. by intros ? [= <-].
    + by intros [-> _].
    + done.
    + intros [_ Hok]. specialize (Hok u eq_refl). congruence.
  - split; [by intros [= <-]|by intros [-> _]].
Qed.

Lemma enum_values_not_empty c :
  c ∈ categories ∨ c ∈ languages → c ≠ EmptyString.
Proof.
  intros [Hin|Hin] ->; revert Hin; apply (bool_decide_unpack _);
    vm_compute; exact I.
Qed.

Lemma union_empty_inv (m1 m2 : gmap string string) :
  m1 ∪ m2 = ∅ → m1 = ∅ ∧ m2 = ∅.
Proof.
  intros Hempty. split; apply map_eq; intros k; rewrite lookup_empty;
    apply (f_equal (λ m, m !! k)) in Hempty;
    rewrite lookup_empty in Hempty;
    by apply lookup_union_None in Hempty as [? ?].
Qed.

Lemma violation_lookup {A} path (r : Checked A) k :
  violation path r !! k = if decide (k = path) then reported r else None.
Proof.
  destruct r as [msg|a]; simpl.
  - case_decide as Hk; [subst; apply lookup_singleton_eq|].
    by apply lookup_singleton_ne.
  - rewrite lookup_empty. by case_decide.
Qed.

Lemma violation_empty {A} path (r : Checked A) :
  violation path r = ∅ → reported r = None.
Proof.
  intros Hempty. apply (f_equal (λ m, m !! path)) in Hempty.
  rewrite violation_lookup, lookup_empty in Hempty. by case_decide.
Qed.

Variable isURL : string → bool.
Variable now : Z.
Variable summary : gmap string string → string.

Local Abbreviation r_title p :=
  (and_then (required "Please provide a title" (JS.trim <$> p_title p))
            (maxlength 100 "Title cannot exceed 100 characters")).
Local Abbreviation r_content p :=
  (required "Please provide content" (JS.trim <$> p_content p)).
Local Abbreviation r_category p :=
  (and_then (required "Please select a category" (p_category p))
            (enum categories (λ _, "Please select a valid category"))).
Local Abbreviation r_readTime p :=
  (required_number "Please provide estimated read time" (p_readTime p)).
Local Abbreviation r_language p :=
  (and_then (required "Please select language" (p_language p))
            (enum languages (default_enum_message "language"))).
Local Abbreviation r_imageUrl p :=
  (validate_with isURL "Please provide a valid URL" (p_imageUrl p)).
Local Abbreviation r_externalLink p :=
  (validate_with isURL "Please provide a valid URL" (p_externalLink p)).
Local Abbreviation errors_of p :=
  (violation "title" (r_title p) ∪ violation "content" (r_content p) ∪
   violation "category" (r_category p) ∪
   violation "readTime" (r_readTime p) ∪
   violation "language" (r_language p) ∪
   violation "imageUrl" (r_imageUrl p) ∪
   violation "externalLink" (r_externalLink p)).

(** The document the schema builds from a payload it accepts. *)
Lemma validate_inr p doc :
  validate isURL now summary p = inr doc ↔
  (∃ t, p_title p = Some t ∧ JS.trim t = title doc ∧
        title doc ≠ EmptyString ∧ (JS.length (title doc) ≤ 100)%nat) ∧
  (∃ c, p_content p = Some c ∧ JS.trim c = content doc ∧
        content doc ≠ EmptyString) ∧
  (p_category p = Some (category doc) ∧ category doc ∈ categories) ∧
  p_readTime p = Some (readTime doc) ∧
  (p_language p = Some (language doc) ∧ language doc ∈ languages) ∧
  (imageUrl doc = p_imageUrl p ∧ ∀ u, p_imageUrl p = Some u → isURL u = true) ∧
  (externalLink doc = p_externalLink p ∧
   ∀ u, p_externalLink p = Some u → isURL u = true) ∧
  createdAt doc = default now (p_createdAt p) ∧
  updatedAt doc = p_updatedAt p.
Proof.
  unfold validate. cbv zeta. split.
  - destruct (r_title p) as [?|t] eqn:Ht; [done|].
    destruct (r_content p) as [?|c] eqn:Hc; [done|].
    destruct (r_category p) as [?|cat] eqn:Hcat; [done|].
    destruct (r_readTime p) as [?|rt] eqn:Hrt; [done|].
    destruct (r_language p) as [?|l] eqn:Hl; [done|].
    destruct (r_imageUrl p) as [?|img] eqn:Himg; [done|].
    destruct (r_externalLink p) as [?|ext] eqn:Hext; [done|].
    intros [= <-]. simpl.
    apply checked_title in Ht. apply checked_content in Hc.
    apply checked_enum in Hcat as (? & _ & ?).
    apply checked_number in Hrt.
    apply checked_enum in Hl as (? & _ & ?).
    apply checked_url in Himg as [-> ?]. apply checked_url in Hext as [-> ?].
    subst. split_and!; eauto.
  - intros (Ht & Hc & [Hcat Hcat'] & Hrt & [Hl Hl'] & [Himg Himg'] &
            [Hext Hext'] & Hcreated & Hupdated).
    apply (checked_title "Please provide a title"
             "Title cannot exceed 100 characters") in Ht as ->.
    apply (checked_content "Please provide content") in Hc as ->.
    rewrite (proj2 (checked_enum "Please select a category" _ categories
                      (p_category p) (category doc)))
      by (split_and!; [done|apply enum_values_not_empty; by left|done]).
    rewrite (proj2 (checked_number _ (p_readTime p) (readTime doc)) Hrt).
    rewrite (proj2 (checked_enum "Please select language" _ languages
                      (p_language p) (language doc)))
      by (split_and!; [done|apply enum_values_not_empty; by right|done]).
    rewrite (proj2 (checked_url isURL _ (p_imageUrl p) (imageUrl doc)))
      by done.
    rewrite (proj2 (checked_url isURL _ (p_externalLink p) (externalLink doc)))
      by done.
    rewrite <- Hcreated, <- Hupdated. by destruct doc.
Qed.

(** A payload the schema refuses is refused with a validation error
    that holds the violation of every path that has one, and of one
    path at least. *)
Lemma validate_inl p e :
  validate isURL now summary p = inl e →
  e = validation_failed summary (errors_of p) ∧ errors_of p ≠ ∅.
Proof.
  unfold validate. cbv zeta. intros Hv.
  assert (e = validation_failed summary (errors_of p)) as ->.
  { destruct (r_title p); [by injection Hv|].
    destruct (r_content p); [by injection Hv|].
    destruct (r_category p); [by injection Hv|].
    destruct (r_readTime p); [by injection Hv|].
    destruct (r_language p); [by injection Hv|].
    destruct (r_imageUrl p); [by injection Hv|].
    destruct (r_externalLink p); [by injection Hv|done]. }
  split; [done|]. intros Hempty.
  repeat (apply union_empty_inv in Hempty as [Hempty ?%violation_empty]).
  apply violation_empty in Hempty.
  destruct (r_title p); [done|]. destruct (r_content p); [done|].
  destruct (r_category p); [done|]. destruct (r_readTime p); [done|].
  destruct (r_language p); [done|]. destruct (r_imageUrl p); [done|].
  by destruct (r_externalLink p).
Qed.

(** The entry of each path in the errors of a payload. *)
Lemma errors_lookup p :
  errors_of p !! "title" = reported (r_title p) ∧
  errors_of p !! "content" = reported (r_content p) ∧
  errors_of p !! "category" = reported (r_category p) ∧
  errors_of p !! "readTime" = reported (r_readTime p) ∧
  errors_of p !! "language" = reported (r_language p) ∧
  errors_of p !! "imageUrl" = reported (r_imageUrl p) ∧
  errors_of p !! "externalLink" = reported (r_externalLink p) ∧
  ∀ k, is_Some (errors_of p !! k) →
       k ∈ ["title"; "content"; "category"; "readTime"; "language";
            "imageUrl"; "externalLink"].
Proof.
  split_and!;
    try (rewrite !lookup_union, !violation_lookup;
         repeat (case_decide; [done|]); repeat case_decide; try done;
         by destruct (reported _)).
  intros k. rewrite !lookup_union, !violation_lookup.
  repeat (case_decide;
          [subst k; intros _; apply (bool_decide_unpack _); by vm_compute|]).
  by intros [? ?].
Qed.

End schema_facts.

(** ** The article controllers *)

Section controller_facts.
Import Article Controller.
Variable castObjectId : string → option string.
Variable castFilter : QueryValue → StoreFailure + (string → bool).
Variable isURL : string → bool.
Variable now : Z.
Variable summary : gmap string string → string.
Variable oid : string.
Variables m_token m_generic : string.

Local Abbreviation respond := (respond m_token m_generic).
Local Abbreviation getAllArticles := (getAllArticles castFilter).
Local Abbreviation getArticle := (getArticle castObjectId).
Local Abbreviation deleteArticle := (deleteArticle castObjectId).
Local Abbreviation createArticle := (createArticle isURL now summary oid).


(** C4 (amended). For an identifier that is an ObjectId with no
    matching record, and a store that answers, get-by-id fails with
    NotFound (404) and so does delete-by-id, which leaves the
    collection as it was; and after the delete of an existing
    identifier has succeeded, a second delete of the same identifier
    fails with 404. An identifier that is not an ObjectId is rejected
    by the cast before the collection is asked, and that rejection,
    like any other of the store, is forwarded as it is, with the
    collection left as it was. *)
Theorem absent_is_not_found {B} (req : Request B) (db : gmap string Doc) :
  (∀ key, castObjectId (params_id req) = Some key → db !! key = None →
     getArticle None req db = NextErr not_found ∧
     deleteArticle None req db = (NextErr not_found, db) ∧
     code <$> respond (NextErr not_found : Outcome B) = Some 404) ∧
  (∀ key, castObjectId (params_id req) = Some key → is_Some (db !! key) →
     ∃ db',
       deleteArticle None req db = (Json 204 (NoData "success"), db') ∧
       deleteArticle None req db' = (NextErr not_found, db')) ∧
  (castObjectId (params_id req) = None →
   ∀ outage,
     getArticle outage req db =
       NextErr (StoreError (cast_error (params_id req))) ∧
     deleteArticle outage req db =
       (NextErr (StoreError (cast_error (params_id req))), db)) ∧
  (∀ failure, is_Some (castObjectId (params_id req)) →
     getArticle (Some failure) req db = NextErr (StoreError failure) ∧
     deleteArticle (Some failure) req db =
       (NextErr (StoreError failure), db)).
Proof.
  unfold Controller.getArticle, Controller.deleteArticle, findByIdAndDelete,
    findById.
  split_and!.
  - intros key -> Habsent. rewrite Habsent. simpl.
    by rewrite (delete_id _ _ Habsent).
  - intros key -> [doc Hdoc]. rewrite Hdoc. simpl.
    eexists. split; [reflexivity|].
    rewrite lookup_delete_eq. simpl.
    by rewrite (delete_id _ _ (lookup_delete_eq _ _)).
  - by intros ->.
  - by intros failure [key ->].
Qed.


(** The condition the handler makes of a parameter the store accepts is
    what the parameter asks. *)
Lemma condition_asks (v : option QueryValue) :
  castable castFilter v →
  ∃ test,
    condition castFilter (if truthy_value v then v else None) = inr test ∧
    ∀ x, test x = true ↔ asks castFilter v x.
Proof.
  destruct v as [[[|c s]|items|fields]|]; simpl.
  - intros _. by exists (λ _, true).
  - intros _. exists (λ x, bool_decide (x = String c s)). split; [done|].
    intros x. apply bool_decide_eq_true.
  - intros [test Htest]. exists test. split; [done|]. intros x. split.
    + intros Hx. by exists test.
    + intros (test' & Htest' & Hx). congruence.
  - intros [test Htest]. exists test. split; [done|]. intros x. split.
    + intros Hx. by exists test.
    + intros (test' & Htest' & Hx). congruence.
  - intros _. by exists (λ _, true).
Qed.

Lemma condition_uncastable (v : option QueryValue) failure :
  uncastable castFilter v failure →
  condition castFilter (if truthy_value v then v else None) = inl failure.
Proof. by destruct v as [[[|c s]|items|fields]|]. Qed.

(** The records a list request gets from a store that answers: those of
    the collection that it asks for, each once. *)
Lemma find_requested (q : Query) (db : gmap string Doc) :
  castable castFilter (q_category q) →
  castable castFilter (q_language q) →
  ∃ found,
    find castFilter None (filter_of q) db = inr found ∧
    (∀ failure,
       find castFilter (Some failure) (filter_of q) db =
         inl (StoreError failure)) ∧
    (∀ id doc, (id, doc) ∈ found ↔
               db !! id = Some doc ∧ requested castFilter q doc) ∧
    NoDup found ∧
    (length found ≤ size db)%nat.
Proof.
  intros (tc & Hc & Hasks_c)%condition_asks (tl & Hl & Hasks_l)%condition_asks.
  unfold find, filter_of. simpl. rewrite Hc, Hl.
  eexists. split; [reflexivity|]. split; [done|]. split_and!.
  - intros id doc. rewrite list_elem_of_filter, elem_of_map_to_list.
    unfold requested. rewrite <- Hasks_c, <- Hasks_l. simpl.
    rewrite andb_True, !Is_true_true. split; intros [? ?]; done.
  - apply NoDup_filter, NoDup_map_to_list.
  - rewrite <- length_map_to_list. apply length_filter.
Qed.

(** A listing the store answers. *)
Lemma getAllArticles_found {B} (req : Request B) (db : gmap string Doc) found :
  find castFilter None (filter_of (query req)) db = inr found →
  getAllArticles None req db =
    Json 200 (ArticleList "success" (length (sort_createdAt_desc found))
                (sort_createdAt_desc found)) ∧
  sort_createdAt_desc found ≡ₚ found.
Proof.
  intros Hfound. unfold Controller.getAllArticles. rewrite Hfound.
  split; [done|]. apply merge_sort_Permutation.
Qed.

(** C5 (amended). A list request whose query the store accepts and
    answers succeeds with status 200, also when no record matches; the
    body carries the records of the collection that have the category
    and the language asked for, each once, newest first, and their
    count. A query the store rejects, at the cast of a parameter that
    is not a string or at the call, does not succeed: the rejection is
    forwarded as it is. *)
Theorem getAllArticles_lists {B} (req : Request B) (db : gmap string Doc) :
  (castable castFilter (q_category (query req)) →
   castable castFilter (q_language (query req)) →
   (∃ articles,
      getAllArticles None req db =
        Json 200 (ArticleList "success" (length articles) articles) ∧
      respond (getAllArticles None req db) =
        Some {| code := 200;
                sent := Some (ArticleList "success" (length articles)
                                articles) |} ∧
      (∀ id doc,
         (id, doc) ∈ articles ↔
         db !! id = Some doc ∧ requested castFilter (query req) doc) ∧
      NoDup articles ∧
      StronglySorted (λ a b, createdAt b.2 ≤ createdAt a.2) articles ∧
      ((∀ id doc, db !! id = Some doc →
                  ¬ requested castFilter (query req) doc) →
       articles = [])) ∧
   (∀ failure,
      getAllArticles (Some failure) req db = NextErr (StoreError failure))) ∧
  (∀ outage failure,
     uncastable castFilter (q_category (query req)) failure ∨
     (castable castFilter (q_category (query req)) ∧
      uncastable castFilter (q_language (query req)) failure) →
     getAllArticles outage req db = NextErr (StoreError failure)).
Proof.
  split.
  - intros Hc Hl.
    destruct (find_requested (query req) db Hc Hl)
      as (found & Hfound & Hdown & Hspec & Hnodup & _).
    destruct (getAllArticles_found req db found Hfound) as [Hlist Hperm].
    split.
    + exists (sort_createdAt_desc found). rewrite Hlist.
      split; [done|]. split; [done|]. split; [|split; [|split]].
      * intros id doc. rewrite Hperm. apply Hspec.
      * by rewrite Hperm.
      * apply (StronglySorted_merge_sort newer_first).
      * intros Hnone. destruct found as [|[id doc] rest]; [reflexivity|].
        destruct (Hspec id doc) as [[Hdoc Hasked] _]; [left|].
        by destruct (Hnone id doc).
    + intros failure. unfold Controller.getAllArticles.
      by rewrite Hdown.
  - intros outage failure Hbad.
    unfold Controller.getAllArticles, find, filter_of. simpl.
    destruct Hbad as [Hc|[Hc Hl]].
    + by rewrite (condition_uncastable _ _ Hc).
    + apply condition_asks in Hc as (tc & -> & _).
      by rewrite (condition_uncastable _ _ Hl).
Qed.

(** A filter key is set exactly by a parameter that is present and is
    not the empty string. *)
Lemma filter_key_Some (v : option QueryValue) x :
  (if truthy_value v then v else None) = Some x ↔
  v = Some x ∧ x ≠ QString EmptyString.
Proof.
  destruct v as [[[|c s]|items|fields]|]; simpl; split;
    try done; try (by intros [[= <-] ?]); by intros [= <-].
Qed.

Lemma same_parameter_filter (v w : option QueryValue) :
  same_parameter v w →
  (if truthy_value v then v else None) = (if truthy_value w then w else None).
Proof.
  intros [->|[[->| ->] [->| ->]]]; done.
Qed.

(** C9 (amended). In a list request a [category] or [language]
    parameter equal to the empty string is treated exactly as an absent
    one: the response is the same, and when neither parameter is more
    than that, every record of the collection is listed. A constraint
    is put on a field if and only if its parameter is present and is
    not the empty string: a non-empty string, or an array or an
    object. *)
Theorem empty_parameter_is_absent {B} (outage : option StoreFailure)
    (req req' : Request B) (db : gmap string Doc) :
  same_parameter (q_category (query req)) (q_category (query req')) →
  same_parameter (q_language (query req)) (q_language (query req')) →
  getAllArticles outage req db = getAllArticles outage req' db ∧
  (∀ v, f_category (filter_of (query req)) = Some v ↔
        q_category (query req) = Some v ∧ v ≠ QString EmptyString) ∧
  (∀ v, f_language (filter_of (query req)) = Some v ↔
        q_language (query req) = Some v ∧ v ≠ QString EmptyString) ∧
  (absent_or_empty (q_category (query req)) →
   absent_or_empty (q_language (query req)) →
   ∃ articles,
     getAllArticles None req db =
       Json 200 (ArticleList "success" (length articles) articles) ∧
     articles ≡ₚ map_to_list db).
Proof.
  intros Hc Hl.
  assert (filter_of (query req) = filter_of (query req')) as Hfilter.
  { unfold filter_of. f_equal; by apply same_parameter_filter. }
  split; [|split; [|split]].
  - unfold Controller.getAllArticles. by rewrite Hfilter.
  - intros v. apply filter_key_Some.
  - intros v. apply filter_key_Some.
  - intros Hc' Hl'. unfold Controller.getAllArticles.
    assert (find castFilter None (filter_of (query req)) db =
              inr (map_to_list db)) as ->.
    { unfold find, filter_of. simpl.
      destruct Hc' as [-> | ->], Hl' as [-> | ->]; simpl; f_equal;
        induction (map_to_list db) as [|d l IH]; try done;
        rewrite filter_cons_True by done; by f_equal. }
    eexists. split; [reflexivity|]. apply merge_sort_Permutation.
Qed.
End controller_facts.


(** C4 (amended), for an ObjectId nothing is stored under and for the
    identifier of the storage guide. *)
Lemma absent_is_not_found_witness :
  (Controller.getArticle Sample.castObjectId None
     (Sample.request None None Sample.fresh_id Sample.no_query ())
     Sample.articles = NextErr Controller.not_found ∧
   Controller.deleteArticle Sample.castObjectId None
     (Sample.request None None Sample.fresh_id Sample.no_query ())
     Sample.articles = (NextErr Controller.not_found, Sample.articles) ∧
   code <$> respond "Invalid token" "Something went wrong"
              (NextErr Controller.not_found : Outcome ()) = Some 404) ∧
  ∃ db',
    Controller.deleteArticle Sample.castObjectId None
      (Sample.request None None Sample.storage_id Sample.no_query ())
      Sample.articles = (Json 204 (NoData "success"), db') ∧
    Controller.deleteArticle Sample.castObjectId None
      (Sample.request None None Sample.storage_id Sample.no_query ()) db' =
      (NextErr Controller.not_found, db').
Proof.
  split.
  - apply (absent_is_not_found Sample.castObjectId
             "Invalid token" "Something went wrong"
             (Sample.request None None Sample.fresh_id Sample.no_query ())
             Sample.articles) with Sample.fresh_id.
    + reflexivity.
    + reflexivity.
  - apply (absent_is_not_found Sample.castObjectId
             "Invalid token" "Something went wrong"
             (Sample.request None None Sample.storage_id Sample.no_query ())
             Sample.articles) with Sample.storage_id.
    + reflexivity.
    + exists Sample.storage_guide. reflexivity.
Defined.

(** C4 as first stated does not hold: no record matches the identifier
    "a9", and yet get-by-id and delete-by-id do not fail with NotFound:
    "a9" is not an ObjectId, the cast of the query rejects it, and the
    handlers forward that rejection, which is not answered with 404. *)
Lemma malformed_id_is_not_404 :
  let req := Sample.request None None "a9" Sample.no_query () in
  let got := Controller.getArticle Sample.castObjectId None req Sample.articles in
  let deleted :=
    Controller.deleteArticle Sample.castObjectId None req Sample.articles in
  Sample.articles !! "a9" = None ∧
  Sample.castObjectId "a9" = None ∧
  got = NextErr (StoreError (Article.cast_error "a9")) ∧
  deleted.1 = NextErr (StoreError (Article.cast_error "a9")) ∧
  got ≠ NextErr Controller.not_found ∧
  deleted.1 ≠ NextErr Controller.not_found ∧
  ¬ fails_with "Invalid token" "Something went wrong" 404 got ∧
  ¬ fails_with "Invalid token" "Something went wrong" 404 deleted.1.
Proof.
  cbv zeta. split_and!; try done.
  - intros (e & [= <-] & Hcode). vm_compute in Hcode. discriminate Hcode.
  - intros (e & [= <-] & Hcode). vm_compute in Hcode. discriminate Hcode.
Qed.


(** C5 (amended), for a list of the articles in French. *)
Lemma getAllArticles_lists_witness :
  let req :=
    Sample.request None None ""
      (Sample.query None (Some (QString "Français"))) () in
  ∃ articles,
    Controller.getAllArticles Sample.castFilter None req Sample.articles =
      Json 200 (ArticleList "success" (length articles) articles) ∧
    (∀ id doc,
       (id, doc) ∈ articles ↔
       Sample.articles !! id = Some doc ∧
       requested Sample.castFilter (query req) doc).
Proof.
  cbv zeta.
  destruct (getAllArticles_lists Sample.castFilter
              "Invalid token" "Something went wrong"
              (Sample.request None None ""
                 (Sample.query None (Some (QString "Français"))) ())
              Sample.articles) as [Hlist _].
  destruct (Hlist I I) as [(articles & Heq & _ & Hspec & _) _].
  exists articles. split; [exact Heq|exact Hspec].
Defined.

(** C5 as first stated does not hold: a list request does not succeed
    when the collection cannot be reached, nor when its category is an
    object the cast of the query rejects; the rejection is forwarded in
    both cases and the request is not answered with 200. *)
Lemma list_request_rejected :
  let plain := Sample.request None None "" Sample.no_query () in
  let bracketed :=
    Sample.request None None ""
      (Sample.query (Some (QObject [("a", QString "b")])) None) () in
  let down :=
    Controller.getAllArticles Sample.castFilter (Some Sample.unreachable)
      plain Sample.articles in
  let miscast :=
    Controller.getAllArticles Sample.castFilter None bracketed
      Sample.articles in
  down = NextErr (StoreError Sample.unreachable) ∧
  miscast = NextErr (StoreError Sample.not_a_string) ∧
  (∀ status payload, down ≠ Json status payload) ∧
  (∀ status payload, miscast ≠ Json status payload) ∧
  respond "Invalid token" "Something went wrong" down =
    Some {| code := 500;
            sent := Some (Failure "error" "Something went wrong") |}.
Proof. cbv zeta. split_and!; done. Qed.

(** C9 (amended), for [?category=] against no query string at all. *)
Lemma empty_parameter_is_absent_witness :
  let req := Sample.request None None ""
               (Sample.query (Some (QString EmptyString)) None) () in
  let req' := Sample.request None None "" Sample.no_query () in
  Controller.getAllArticles Sample.castFilter None req Sample.articles =
    Controller.getAllArticles Sample.castFilter None req' Sample.articles ∧
  (∀ v, Article.f_category (Controller.filter_of (query req)) = Some v ↔
        q_category (query req) = Some v ∧ v ≠ QString EmptyString) ∧
  (∀ v, Article.f_language (Controller.filter_of (query req)) = Some v ↔
        q_language (query req) = Some v ∧ v ≠ QString EmptyString) ∧
  (absent_or_empty (q_category (query req)) →
   absent_or_empty (q_language (query req)) →
   ∃ articles,
     Controller.getAllArticles Sample.castFilter None req Sample.articles =
       Json 200 (ArticleList "success" (length articles) articles) ∧
     articles ≡ₚ map_to_list Sample.articles).
Proof.
  apply (empty_parameter_is_absent Sample.castFilter None
           (Sample.request None None ""
              (Sample.query (Some (QString EmptyString)) None) ())
           (Sample.request None None "" Sample.no_query ())
           Sample.articles).
  - right. split; [by right|by left].
  - left. reflexivity.
Defined.

(** C9 as first stated does not hold: a [category] parameter that is
    an array ([?category=Hygiene&category=Nutrition]) or an object
    ([?category[a]=b]) is not a non-empty string, and yet it is put in
    the filter; with the array the list is constrained to the two
    categories, with the object the query is rejected. *)
Lemma array_parameter_is_filtered :
  let repeated := QArray [QString "Hygiene"; QString "Nutrition"] in
  let bracketed := QObject [("a", QString "b")] in
  let req v := Sample.request None None "" (Sample.query (Some v) None) () in
  ¬ non_empty_string (Some repeated) ∧
  ¬ non_empty_string (Some bracketed) ∧
  Article.f_category (Controller.filter_of (query (req repeated))) =
    Some repeated ∧
  Article.f_category (Controller.filter_of (query (req bracketed))) =
    Some bracketed ∧
  Controller.getAllArticles Sample.castFilter None (req repeated)
    Sample.articles =
    Json 200 (ArticleList "success" 1
                [(Sample.hygiene_id, Sample.hygiene_guide)]) ∧
  Controller.getAllArticles Sample.castFilter None (req bracketed)
    Sample.articles = NextErr (StoreError Sample.not_a_string) ∧
  Controller.getAllArticles Sample.castFilter None
    (Sample.request None None "" Sample.no_query ()) Sample.articles =
    Json 200 (ArticleList "success" 2
                [(Sample.hygiene_id, Sample.hygiene_guide);
                 (Sample.storage_id, Sample.storage_guide)]).
Proof.
  cbv zeta. split_and!; try (vm_compute; reflexivity).
  - by intros (s & [=] & _).
  - by intros (s & [=] & _).
Qed.

(** ** Where error bodies are decided *)

Section failure_facts.
Variables m_token m_generic : string.

Local Abbreviation respond := (respond m_token m_generic).





End failure_facts.



(** ** Login *)

(** C8. A login that fails on a wrong password for an existing user and
    a login that fails on an email no user has end in the same
    Unauthenticated (401) response, body included. *)
Theorem login_failures_identical {B}
    (correctPassword : string → string → bool) (signToken : string → string)
    (incorrect_message m_token m_generic : string)
    (users : gmap string User) (known unknown pw pw' : string) (u : User) :
  Login.findByEmail known users = Some u →
  correctPassword pw (password u) = false →
  Login.findByEmail unknown users = None →
  let wrong_password : Outcome B :=
    Login.login correctPassword signToken incorrect_message (known, pw) users in
  let no_such_user : Outcome B :=
    Login.login correctPassword signToken incorrect_message (unknown, pw') users in
  wrong_password = no_such_user ∧
  respond m_token m_generic wrong_password =
    respond m_token m_generic no_such_user ∧
  respond m_token m_generic wrong_password =
    Some {| code := 401; sent := Some (Failure "fail" incorrect_message) |}.
Proof.
  intros Hknown Hwrong Hunknown. cbv zeta. unfold Login.login.
  by rewrite Hknown, Hwrong, Hunknown.
Qed.

(** C8, for the admin's email with a wrong password against an email
    nobody has. *)
Lemma login_failures_identical_witness :
  (Login.login Sample.correctPassword Sample.signToken
     "Incorrect email or password"
     ("admin@agrihealth.africa", "guess") Sample.users : Outcome ()) =
  Login.login Sample.correctPassword Sample.signToken
    "Incorrect email or password"
    ("nobody@agrihealth.africa", "s3cret") Sample.users.
Proof.
  apply (login_failures_identical (B := ())
           Sample.correctPassword Sample.signToken
           "Incorrect email or password" "Invalid token" "Something went wrong"
           Sample.users "admin@agrihealth.africa" "nobody@agrihealth.africa"
           "guess" "s3cret" Sample.admin).
  - reflexivity.
  - reflexivity.
  - reflexivity.
Defined.

(** ** The contract of the auth middleware on sample requests *)

(** C1 (amended), for the token "good" of the admin: the admin is
    attached and the request passed on. *)
Lemma auth_contract_witness :
  let req := Sample.request (Some "Bearer good") None "" Sample.no_query () in
  (Auth.auth "secret" Sample.verify Sample.findById req).1 =
    Next (set_user Sample.admin req).
Proof.
  cbv zeta.
  pose proof (auth_contract "secret" Sample.verify Sample.findById
                "Invalid token" "Something went wrong"
                (Sample.request (Some "Bearer good") None "" Sample.no_query ()))
    as (_ & _ & Hresolved & _).
  apply Hresolved.
  exists "good", {| Auth.id := "u1" |}. repeat split.
Defined.

Example token_of_bearer :
  Auth.token_of {| authorization := Some "Bearer abc.def.ghi" |} =
    Some "abc.def.ghi".
Proof. reflexivity. Qed.

Example token_of_other_scheme :
  Auth.token_of {| authorization := Some "Basic dXNlcjpwdw==" |} = None.
Proof. reflexivity. Qed.

Example token_of_trailing_space :
  Auth.token_of {| authorization := Some "Bearer " |} = Some EmptyString.
Proof. reflexivity. Qed.

Example auth_bad_signature :
  Auth.auth "secret" Sample.verify Sample.findById
    (Sample.request (Some "Bearer forged") None "" Sample.no_query ()) =
    (NextErr (JwtError (JsonWebTokenError "invalid signature")),
     [Auth.Verify "forged" "secret"]).
Proof. reflexivity. Qed.

Example list_newest_first :
  Controller.getAllArticles Sample.castFilter None
    (Sample.request None None "" Sample.no_query ()) Sample.articles =
    Json 200
      (ArticleList "success" 2
         [(Sample.hygiene_id, Sample.hygiene_guide);
          (Sample.storage_id, Sample.storage_guide)]).
Proof. vm_compute. reflexivity. Qed.

Example list_no_match :
  Controller.getAllArticles Sample.castFilter None
    (Sample.request None None ""
       (Sample.query (Some (QString "Nutrition")) None) ())
    Sample.articles = Json 200 (ArticleList "success" 0 []).
Proof. vm_compute. reflexivity. Qed.

Example trim_unicode :
  JS.trim (JS.of_bytes [194; 160; 32; 97; 32; 98; 226; 128; 168; 9]%nat) =
    "a b".
Proof. vm_compute. reflexivity. Qed.

Example length_accented :
  JS.length Sample.accented_title = 51%nat ∧
  String.length Sample.accented_title = 102%nat.
Proof. split; vm_compute; reflexivity. Qed.

(** * Further properties *)

(** ** Splitting at a separator *)

Lemma split_sep_free sep s : occurs sep s = false → JS.split sep s = [s].
Proof.
  induction s as [|a s IH]; simpl; [done|].
  intros [Ha Hs]%orb_false_iff. rewrite Ha, (IH Hs). done.
Qed.

Lemma split_app sep p q :
  occurs sep p = false →
  JS.split sep (p +:+ String sep q) = p :: JS.split sep q.
Proof.
  induction p as [|a p IH]; simpl.
  - intros _. by rewrite Ascii.eqb_refl.
  - intros [Ha Hp]%orb_false_iff. by rewrite Ha, (IH Hp).
Qed.

(** No piece of a split holds the separator. *)
Lemma split_pieces_sep_free sep s piece :
  piece ∈ JS.split sep s → occurs sep piece = false.
Proof.
  revert piece. induction s as [|a s IH]; intros piece; simpl.
  - by intros ->%list_elem_of_singleton.
  - destruct (Ascii.eqb a sep) eqn:Ha.
    + intros [->|Hin]%elem_of_cons; [done|by apply IH].
    + destruct (JS.split sep s) as [|p ps].
      * intros ->%list_elem_of_singleton. simpl. by rewrite Ha.
      * intros [->|Hin]%elem_of_cons.
        -- simpl. rewrite Ha. apply IH. left.
        -- apply IH. by right.
Qed.

(** Joining the pieces with the separator gives the string back. *)
Lemma split_join sep s :
  String.concat (String sep EmptyString) (JS.split sep s) = s.
Proof.
  induction s as [|a s IH]; simpl; [done|].
  pose proof (split_not_nil sep s) as Hnil.
  destruct (Ascii.eqb a sep) eqn:Ha.
  - apply Ascii.eqb_eq in Ha as ->.
    destruct (JS.split sep s) as [|p ps]; [done|].
    simpl in *. by rewrite IH.
  - destruct (JS.split sep s) as [|p ps]; [done|].
    destruct ps as [|p' ps]; simpl in *; by rewrite <- IH.
Qed.

Lemma startsWith_Bearer_app y : JS.startsWith ("Bearer" +:+ y) "Bearer" = true.
Proof. unfold JS.startsWith. cbn. by destruct y. Qed.

(** ** The auth middleware: what it hands to its collaborators *)

Section auth_more.
Variable JWT_SECRET : string.
Variable jwt_verify : string → string → JwtFailure + Auth.Decoded.
Variable User_findById : string → StoreFailure + option User.
Context {B : Type}.

Local Abbreviation auth := (Auth.auth JWT_SECRET jwt_verify User_findById).

Lemma credential_token_of (req : Request B) token :
  credential req = Some token ↔
  Auth.token_of (headers req) = Some token ∧ token ≠ EmptyString.
Proof.
  unfold credential.
  destruct (Auth.token_of (headers req)) as [[|c t]|]; split.
  - done.
  - by intros [[= <-] ?].
  - by intros [= <-].
  - by intros [[= <-] _].
  - done.
  - by intros [[=] _].
Qed.

Lemma token_of_header (req : Request B) token :
  Auth.token_of (headers req) = Some token →
  ∃ a, authorization (headers req) = Some a ∧
       JS.startsWith a "Bearer" = true ∧
       JS.split " " a !! 1%nat = Some token.
Proof.
  unfold Auth.token_of.
  destruct (authorization (headers req)) as [a|]; [|done].
  destruct (JS.truthy a); [|done]. simpl.
  destruct (JS.startsWith a "Bearer") eqn:Hbearer; [|done]. eauto.
Qed.

(** X1. A header made of a first piece that starts with "Bearer", one
    space and a non-empty token without spaces is read back as exactly
    that token, and the verifier is the first collaborator called, on
    that token and the configured secret. *)
Theorem bearer_token_read_back (req : Request B) (x t : string) :
  authorization (headers req) = Some ("Bearer" +:+ x +:+ " " +:+ t) →
  occurs " " x = false →
  occurs " " t = false →
  t ≠ EmptyString →
  credential req = Some t ∧
  head (auth req).2 = Some (Auth.Verify t JWT_SECRET).
Proof.
  intros Hauth Hx Ht Hne.
  assert (credential req = Some t) as Hcred.
  { apply credential_token_of. split; [|done].
    unfold Auth.token_of. rewrite Hauth.
    change ("Bearer" +:+ x +:+ " " +:+ t)
      with (("Bearer" +:+ x) +:+ String " " t) at 3.
    rewrite split_app by done. rewrite (split_sep_free _ _ Ht).
    rewrite startsWith_Bearer_app. reflexivity. }
  split; [done|]. rewrite auth_by_credential, Hcred.
  destruct (jwt_verify t JWT_SECRET) as [?|decoded]; [done|].
  by destruct (User_findById (Auth.id decoded)) as [?|[?|]].
Qed.

(** X2. Whatever the request, a token reaches the verifier only if the
    authorization header starts with "Bearer" and the token is its
    second piece; that token is never empty and holds no space, and it
    is verified against the configured secret. *)
Theorem verified_token_shape (req : Request B) (token secret : string) :
  Auth.Verify token secret ∈ (auth req).2 →
  secret = JWT_SECRET ∧ token ≠ EmptyString ∧ occurs " " token = false ∧
  ∃ a, authorization (headers req) = Some a ∧
       JS.startsWith a "Bearer" = true ∧
       JS.split " " a !! 1%nat = Some token.
Proof.
  rewrite auth_by_credential.
  destruct (credential req) as [token'|] eqn:Hcred;
    [|by intros ?%elem_of_nil].
  assert (Auth.Verify token secret ∈
            [Auth.Verify token' JWT_SECRET] ∨
          (∃ i, Auth.Verify token secret ∈
                  [Auth.Verify token' JWT_SECRET; Auth.FindById i]) →
          token = token' ∧ secret = JWT_SECRET) as Hsame.
  { intros [[=]%list_elem_of_singleton|[i Hin]]; [done|].
    apply elem_of_cons in Hin as [[=]|[=]%list_elem_of_singleton]. done. }
  intros Hin.
  assert (token = token' ∧ secret = JWT_SECRET) as [-> ->].
  { apply Hsame.
    destruct (jwt_verify token' JWT_SECRET) as [?|decoded]; [by left|].
    right. exists (Auth.id decoded).
    by destruct (User_findById (Auth.id decoded)) as [?|[?|]]. }
  apply credential_token_of in Hcred as [Htoken Hne].
  destruct (token_of_header _ _ Htoken) as (a & Ha & Hbearer & Hpiece).
  split; [done|]. split; [done|]. split; [|eauto].
  apply (split_pieces_sep_free " " a).
  by apply list_elem_of_lookup_2 in Hpiece.
Qed.

(** X3. The middleware calls nobody when it has no credential, and it
    asks for a user only after the verifier has accepted the token, and
    then by the identifier the verifier decoded: a token that fails
    verification never causes a lookup. *)
Theorem lookup_only_after_verification (req : Request B) :
  ((auth req).2 = [] ↔ no_credential req) ∧
  (length (auth req).2 ≤ 2)%nat ∧
  (∀ i, Auth.FindById i ∈ (auth req).2 →
        ∃ token decoded,
          credential req = Some token ∧
          jwt_verify token JWT_SECRET = inr decoded ∧
          Auth.id decoded = i) ∧
  (verification_fails JWT_SECRET jwt_verify req →
   ∀ i, Auth.FindById i ∉ (auth req).2).
Proof.
  rewrite auth_by_credential. unfold no_credential, verification_fails.
  destruct (credential req) as [token|] eqn:Hcred.
  2:{ simpl. split; [done|]. split; [lia|].
      split; [by intros ? ?%elem_of_nil|]. by intros (? & ? & [=] & _). }
  destruct (jwt_verify token JWT_SECRET) as [thrown|decoded] eqn:Hv.
  - simpl. split; [done|]. split; [lia|]. split.
    + by intros i [=]%list_elem_of_singleton.
    + by intros _ i [=]%list_elem_of_singleton.
  - assert (∀ o : Outcome B * list Auth.Call,
              o.2 = [Auth.Verify token JWT_SECRET;
                     Auth.FindById (Auth.id decoded)] →
              (o.2 = [] ↔ Some token = None) ∧ (length o.2 ≤ 2)%nat ∧
              (∀ i, Auth.FindById i ∈ o.2 →
                    ∃ token0 decoded0,
                      Some token = Some token0 ∧
                      jwt_verify token0 JWT_SECRET = inr decoded0 ∧
                      Auth.id decoded0 = i) ∧
              ((∃ token0 thrown,
                  Some token = Some token0 ∧
                  jwt_verify token0 JWT_SECRET = inl thrown) →
               ∀ i, Auth.FindById i ∉ o.2)) as Hshape.
    { intros o ->. split; [done|]. split; [simpl; lia|]. split.
      - intros i [[=]|[= ->]%list_elem_of_singleton]%elem_of_cons. eauto.
      - intros (? & ? & [= <-] & ?). congruence. }
    destruct (User_findById (Auth.id decoded)) as [?|[?|]];
      by apply Hshape.
Qed.

(** X4. A request the middleware passes on is the incoming request with
    the resolved user attached and nothing else changed, and the
    middleware run on it again passes it on as it is. *)
Theorem auth_attaches_user_only (req r : Request B) :
  (auth req).1 = Next r →
  headers r = headers req ∧ params_id r = params_id req ∧
  query r = query req ∧ body r = body req ∧
  (∃ u, user r = Some u ∧
        user_resolved JWT_SECRET jwt_verify User_findById req u) ∧
  auth r = (Next r, (auth req).2).
Proof.
  rewrite !auth_by_credential.
  assert (∀ u, credential (set_user u req) = credential req) as Hsame by done.
  destruct (credential req) as [token|] eqn:Hcred; [|done].
  destruct (jwt_verify token JWT_SECRET) as [?|decoded] eqn:Hv; [done|].
  destruct (User_findById (Auth.id decoded)) as [?|[u|]] eqn:Hf; try done.
  simpl. intros [= <-]. rewrite Hsame, Hv, Hf. simpl.
  repeat split. exists u. split; [done|].
  by exists token, decoded.
Qed.

(** X5. On a route guarded by the auth middleware and then the role
    guard, the handler is reached exactly by a request whose credential
    resolves to a user with a role of the allow-set, and it receives
    that user; neither stage answers by itself, the role guard never
    meets a request without a user, and Forbidden is raised exactly for
    a resolved user whose role is outside the allow-set. *)
Theorem guarded_route (roles : list string) (req : Request B) :
  let o := and_next (auth req).1 (Auth.restrictTo roles) in
  (∀ r, o = Next r ↔
        ∃ u, user_resolved JWT_SECRET jwt_verify User_findById req u ∧
             role u ∈ roles ∧ r = set_user u req) ∧
  (o = NextErr Auth.forbidden ↔
   ∃ u, user_resolved JWT_SECRET jwt_verify User_findById req u ∧
        role u ∉ roles) ∧
  (∀ m, o ≠ NextErr (TypeError m)) ∧
  (∀ status payload, o ≠ Json status payload).
Proof.
  cbv zeta. rewrite auth_by_credential. unfold user_resolved.
  destruct (credential req) as [token|] eqn:Hcred.
  2:{ simpl. split; [|split]; [| |done].
      - intros r. split; [done|]. by intros (? & (? & ? & [=] & _) & _).
      - split; [done|]. by intros (? & (? & ? & [=] & _) & _). }
  destruct (jwt_verify token JWT_SECRET) as [?|decoded] eqn:Hv.
  { simpl. split; [|split]; [| |done].
    - intros r. split; [done|].
      intros (? & (? & ? & [= <-] & ? & _) & _). congruence.
    - split; [done|].
      intros (? & (? & ? & [= <-] & ? & _) & _). congruence. }
  destruct (User_findById (Auth.id decoded)) as [?|[u|]] eqn:Hf; simpl.
  - split; [|split]; [| |done].
    + intros r. split; [done|].
      intros (? & (? & ? & [= <-] & ? & ?) & _). congruence.
    + split; [done|].
      intros (? & (? & ? & [= <-] & ? & ?) & _). congruence.
  - unfold Auth.restrictTo, JS.includes. simpl.
    destruct (decide (role u ∈ roles)) as [Hin|Hout].
    + rewrite bool_decide_eq_true_2 by done. simpl.
      split; [|split]; [| |done].
      * intros r. split.
        -- intros [= <-]. exists u. eauto 10.
        -- intros (u' & (? & ? & [= <-] & ? & ?) & _ & ->). congruence.
      * split; [done|].
        intros (u' & (? & ? & [= <-] & ? & ?) & Hout).
        destruct Hout. congruence.
    + rewrite bool_decide_eq_false_2 by done. simpl.
      split; [|split]; [| |done].
      * intros r. split; [done|].
        intros (u' & (? & ? & [= <-] & ? & ?) & Hin & _).
        destruct Hout. congruence.
      * split; [|done]. intros _. exists u. eauto 10.
  - split; [|split]; [| |done].
    + intros r. split; [done|].
      intros (? & (? & ? & [= <-] & ? & ?) & _). congruence.
    + split; [done|].
      intros (? & (? & ? & [= <-] & ? & ?) & _). congruence.
Qed.
End auth_more.

(** X6. The role guard passes a request on only when it carries a user
    whose role is in the allow-set, and then unchanged; a request
    without a user, and any request under an empty allow-set, is never
    passed on. *)
Theorem restrictTo_passes_only_allowed {B} (roles : list string)
    (req r : Request B) :
  (Auth.restrictTo roles req = Next r →
   r = req ∧ ∃ u, user req = Some u ∧ role u ∈ roles) ∧
  (user req = None → Auth.restrictTo roles req ≠ Next r) ∧
  Auth.restrictTo [] req ≠ Next r.
Proof.
  unfold Auth.restrictTo, JS.includes.
  destruct (user req) as [u|]; [|done].
  split; [|split; [done|]].
  - case_bool_decide; simpl; [|done]. intros [= <-]. eauto.
  - rewrite bool_decide_eq_false_2; [done|]. apply not_elem_of_nil.
Qed.

(** ** What the schema accepts, and what it reports *)

Section schema_more.
Import Article.
Variable isURL : string → bool.
Variable now : Z.
Variable summary : gmap string string → string.

Lemma not_all_space s : JS.all_space s = false ↔ JS.trim s ≠ EmptyString.
Proof.
  rewrite trim_all_space. destruct (JS.all_space s); split; done.
Qed.

Lemma schema_accepts_doc p :
  acceptable isURL p → ∃ doc, validate isURL now summary p = inr doc.
Proof.
  intros ((t & Ht & Hne%not_all_space & Hlen) & (c & Hc & Hc'%not_all_space) &
          (cat & Hcat & Hcat') & [rt Hrt] & (l & Hl & Hl') & Himg & Hext).
  exists {| title := JS.trim t; content := JS.trim c; category := cat;
            readTime := rt; language := l; imageUrl := p_imageUrl p;
            externalLink := p_externalLink p;
            createdAt := default now (p_createdAt p);
            updatedAt := p_updatedAt p |}.
  apply validate_inr. simpl. split_and!; eauto.
Qed.

(** X7. The schema accepts a create payload exactly when the payload
    has a title that is not white space only and, trimmed, has a length
    of at most 100, a content that is not white space only, a category
    and a language of the enumerated sets, a read time, and URLs the
    URL check accepts; what it then stores is the payload field for
    field, with title and content trimmed and the creation date
    defaulting to the clock. *)
Theorem schema_accepts_exactly (p : Payload) :
  (acceptable isURL p ↔ ∃ doc, validate isURL now summary p = inr doc) ∧
  (∀ doc, validate isURL now summary p = inr doc →
     Some (title doc) = JS.trim <$> p_title p ∧
     Some (content doc) = JS.trim <$> p_content p ∧
     Some (category doc) = p_category p ∧
     Some (readTime doc) = p_readTime p ∧
     Some (language doc) = p_language p ∧
     imageUrl doc = p_imageUrl p ∧
     externalLink doc = p_externalLink p ∧
     createdAt doc = default now (p_createdAt p) ∧
     updatedAt doc = p_updatedAt p).
Proof.
  split.
  - unfold acceptable. split.
    + apply schema_accepts_doc.
    + intros [doc Hdoc%validate_inr].
      destruct Hdoc as ((t & Ht & <- & Hne%not_all_space & Hlen) &
                        (c & Hc & <- & Hcne%not_all_space) &
                        [Hcat Hcat'] & Hrt & [Hl Hl'] & [_ Himg] &
                        [_ Hext] & _).
      split_and!; eauto.
  - intros doc Hdoc%validate_inr.
    destruct Hdoc as ((t & -> & <- & _) & (c & -> & <- & _) & [-> _] & -> &
                      [-> _] & [-> _] & [-> _] & -> & ->).
    done.
Qed.

Lemma title_missing msg v f :
  blank v →
  reported (and_then (B := string) (required msg (JS.trim <$> v)) f) =
    Some msg.
Proof.
  destruct v as [s|]; simpl; [|done]. by intros ->%trim_all_space.
Qed.

Lemma title_long msg msg' v t :
  v = Some t → (100 < JS.length (JS.trim t))%nat →
  reported (and_then (required msg (JS.trim <$> v)) (maxlength 100 msg')) =
    Some msg'.
Proof.
  intros -> Hlong. simpl.
  destruct (JS.trim t) as [|c r] eqn:Htrim; [simpl in Hlong; lia|].
  simpl. unfold maxlength. by rewrite bool_decide_eq_false_2 by lia.
Qed.

Lemma content_missing msg v :
  blank v → reported (required msg (JS.trim <$> v)) = Some msg.
Proof.
  destruct v as [s|]; simpl; [|done]. by intros ->%trim_all_space.
Qed.

Lemma enum_missing msg v f :
  v = None ∨ v = Some EmptyString →
  reported (and_then (B := string) (required msg v) f) = Some msg.
Proof. by intros [->| ->]. Qed.

Lemma enum_invalid msg msg' values v c :
  v = Some c → c ≠ EmptyString → c ∉ values →
  reported (and_then (required msg v) (enum values msg')) = Some (msg' c).
Proof.
  intros -> Hne Hout. destruct c as [|a r]; [done|]. simpl.
  unfold enum, JS.includes. by rewrite bool_decide_eq_false_2.
Qed.

Lemma url_invalid msg v u :
  v = Some u → isURL u = false →
  reported (validate_with isURL msg v) = Some msg.
Proof. intros -> Hu. simpl. by rewrite Hu. Qed.

(** X8. When the schema refuses a create payload, the error holds the
    violation of every violated path, not only of the first, with the
    message the schema gives it: a title or content that is missing or
    white space only, a title whose length is more than 100, a missing
    or unknown category or language, a missing read time, a URL the
    check refuses. It holds one violation at least, of the paths of the
    schema only, and its message is made of them. *)
Theorem every_violation_reported (p : Payload) (msg : string)
    (vs : gmap string string) :
  validate isURL now summary p = inl (ValidationError msg vs) →
  (blank (p_title p) → vs !! "title" = Some "Please provide a title") ∧
  (∀ t, p_title p = Some t → (100 < JS.length (JS.trim t))%nat →
        vs !! "title" = Some "Title cannot exceed 100 characters") ∧
  (blank (p_content p) → vs !! "content" = Some "Please provide content") ∧
  (p_category p = None ∨ p_category p = Some EmptyString →
   vs !! "category" = Some "Please select a category") ∧
  (∀ c, p_category p = Some c → c ≠ EmptyString → c ∉ categories →
        vs !! "category" = Some "Please select a valid category") ∧
  (p_readTime p = None →
   vs !! "readTime" = Some "Please provide estimated read time") ∧
  (p_language p = None ∨ p_language p = Some EmptyString →
   vs !! "language" = Some "Please select language") ∧
  (∀ l, p_language p = Some l → l ≠ EmptyString → l ∉ languages →
        vs !! "language" = Some (default_enum_message "language" l)) ∧
  (∀ u, p_imageUrl p = Some u → isURL u = false →
        vs !! "imageUrl" = Some "Please provide a valid URL") ∧
  (∀ u, p_externalLink p = Some u → isURL u = false →
        vs !! "externalLink" = Some "Please provide a valid URL") ∧
  (∀ k, is_Some (vs !! k) →
        k ∈ ["title"; "content"; "category"; "readTime"; "language";
             "imageUrl"; "externalLink"]) ∧
  vs ≠ ∅ ∧
  msg = "Article validation failed: " +:+ summary vs.
Proof.
  intros [[= -> ->] Hne]%validate_inl.
  destruct (errors_lookup isURL p)
    as (Ht & Hc & Hcat & Hrt & Hl & Himg & Hext & Hdom).
  split_and!; try done.
  - intros Hbad. rewrite Ht. by apply title_missing.
  - intros t Hset Hlong. rewrite Ht. by apply (title_long _ _ _ t).
  - intros Hbad. rewrite Hc. by apply content_missing.
  - intros Hbad. rewrite Hcat. by apply enum_missing.
  - intros c Hset Hnot Hout. rewrite Hcat.
    by apply (enum_invalid _ (λ _, "Please select a valid category") _ _ c).
  - intros Hset. rewrite Hrt, Hset. done.
  - intros Hbad. rewrite Hl. by apply enum_missing.
  - intros l Hset Hnot Hout. rewrite Hl.
    by apply (enum_invalid _ (default_enum_message "language") _ _ l).
  - intros u Hset Hbad. rewrite Himg. by apply (url_invalid _ _ u).
  - intros u Hset Hbad. rewrite Hext. by apply (url_invalid _ _ u).
Qed.
End schema_more.

(** ** The article collection under create, update and delete *)

Section collection_facts.
Import Article Controller Update.
Variable castObjectId : string → option string.
Variable castFilter : QueryValue → StoreFailure + (string → bool).
Variable isURL : string → bool.
Variable now : Z.
Variable summary : gmap string string → string.
Variable oid : string.

Local Abbreviation getAllArticles := (getAllArticles castFilter).
Local Abbreviation getArticle := (getArticle castObjectId).
Local Abbreviation deleteArticle := (deleteArticle castObjectId).
Local Abbreviation createArticle := (createArticle isURL now summary oid).
Local Abbreviation updateArticle :=
  (updateArticle isURL summary castObjectId).

Lemma validate_well_formed p doc :
  validate isURL now summary p = inr doc → well_formed isURL doc.
Proof.
  intros ((t & _ & Ht & Hne & Hlen) & (c & _ & Hc & Hcne) & [_ Hcat] & _ &
          [_ Hl] & [Himg Himg'] & [Hext Hext'] & _)%validate_inr.
  unfold well_formed. split_and!; try done.
  - rewrite <- Ht. apply trim_idem.
  - rewrite <- Hc. apply trim_idem.
  - by rewrite Himg.
  - by rewrite Hext.
Qed.

Lemma on_set_inr {A C} (v : option A) (check : A → Checked C) o :
  on_set v check = inr o →
  match v with
  | None => o = None
  | Some a => ∃ c, check a = inr c ∧ o = Some c
  end.
Proof.
  unfold on_set. destruct v as [a|]; [|by intros [= <-]].
  destruct (check a) as [?|c]; [done|]. intros [= <-]. eauto.
Qed.

Lemma on_set_same {A} (v : option A) (check : A → Checked A) o :
  (∀ a c, check a = inr c → c = a) → on_set v check = inr o → o = v.
Proof.
  intros Hsame. unfold on_set. destruct v as [a|]; [|by intros [= <-]].
  destruct (check a) as [?|c] eqn:Hcheck; [done|].
  intros [= <-]. by rewrite (Hsame _ _ Hcheck).
Qed.

Lemma title_check_same msg msg' n a c :
  and_then (required msg (Some a)) (maxlength n msg') = inr c → c = a.
Proof.
  destruct a as [|x r]; [done|]. simpl. unfold maxlength.
  case_bool_decide; congruence.
Qed.

Lemma content_check_same msg a c : required msg (Some a) = inr c → c = a.
Proof. by intros [[= <-] _]%required_spec. Qed.

Lemma enum_check_same msg msg' values a c :
  and_then (required msg (Some a)) (enum values msg') = inr c → c = a.
Proof. by intros ([= <-] & _)%checked_enum. Qed.

Lemma title_check_ok msg msg' a c :
  and_then (required msg (Some a)) (maxlength 100 msg') = inr c →
  c = a ∧ c ≠ EmptyString ∧ (JS.length c ≤ 100)%nat.
Proof.
  destruct a as [|x r]; [done|]. simpl. unfold maxlength.
  case_bool_decide; [|done]. by intros [= <-].
Qed.

Lemma fmap_trim_some v a : JS.trim <$> v = Some a → JS.trim a = a.
Proof. destruct v as [s|]; [|done]. intros [= <-]. apply trim_idem. Qed.

(** What an update that passes validation sets: the payload's values,
    title and content trimmed, each meeting the demands of its path. *)
Lemma validate_update_inr p u :
  validate_update isURL summary p = inr u →
  u = {| p_title := JS.trim <$> p_title p;
         p_content := JS.trim <$> p_content p;
         p_category := p_category p; p_readTime := p_readTime p;
         p_language := p_language p; p_imageUrl := p_imageUrl p;
         p_externalLink := p_externalLink p;
         p_createdAt := p_createdAt p; p_updatedAt := p_updatedAt p |} ∧
  (∀ t, p_title u = Some t →
        t ≠ EmptyString ∧ (JS.length t ≤ 100)%nat ∧ JS.trim t = t) ∧
  (∀ c, p_content u = Some c → c ≠ EmptyString ∧ JS.trim c = c) ∧
  (∀ c, p_category u = Some c → c ∈ categories) ∧
  (∀ l, p_language u = Some l → l ∈ languages) ∧
  (∀ x, p_imageUrl u = Some x → isURL x = true) ∧
  (∀ x, p_externalLink u = Some x → isURL x = true).
Proof.
  unfold validate_update. cbv zeta.
  destruct (on_set (JS.trim <$> p_title p) _) as [?|t] eqn:Ht; [done|].
  destruct (on_set (JS.trim <$> p_content p) _) as [?|c] eqn:Hc; [done|].
  destruct (on_set (p_category p) _) as [?|cat] eqn:Hcat; [done|].
  destruct (on_set (p_language p) _) as [?|l] eqn:Hl; [done|].
  destruct (validate_with isURL _ (p_imageUrl p)) as [?|img] eqn:Himg;
    [done|].
  destruct (validate_with isURL _ (p_externalLink p)) as [?|ext] eqn:Hext;
    [done|].
  intros [= <-]. simpl.
  pose proof Ht as Ht0. pose proof Hc as Hc0.
  pose proof Hcat as Hcat0. pose proof Hl as Hl0.
  apply on_set_inr in Ht, Hc, Hcat, Hl.
  apply checked_url in Himg as [-> Himg], Hext as [-> Hext].
  split_and!; try done.
  - f_equal.
    + apply (on_set_same _ _ _ (title_check_same _ _ _) Ht0).
    + apply (on_set_same _ _ _ (content_check_same _) Hc0).
    + apply (on_set_same _ _ _ (enum_check_same _ _ _) Hcat0).
    + apply (on_set_same _ _ _ (enum_check_same _ _ _) Hl0).
  - intros t' ->. destruct (JS.trim <$> p_title p) as [a|] eqn:Ha; [|done].
    destruct Ht as (t1 & Ht & [= <-]).
    apply title_check_ok in Ht as (-> & ? & ?).
    split_and!; [done..|by apply (fmap_trim_some (p_title p))].
  - intros c' ->. destruct (JS.trim <$> p_content p) as [a|] eqn:Ha; [|done].
    destruct Hc as (c1 & Hc & [= <-]).
    apply required_spec in Hc as ([= <-] & ?).
    split; [done|by apply (fmap_trim_some (p_content p))].
  - intros c' ->. destruct (p_category p) as [c0|]; [|done].
    destruct Hcat as (c1 & Hcat & [= <-]).
    by apply checked_enum in Hcat as (_ & _ & ?).
  - intros l' ->. destruct (p_language p) as [l0|]; [|done].
    destruct Hl as (l1 & Hl & [= <-]).
    by apply checked_enum in Hl as (_ & _ & ?).
Qed.

Lemma validate_update_inl p e :
  validate_update isURL summary p = inl e →
  ∃ vs, e = update_failed summary vs.
Proof.
  unfold validate_update. cbv zeta.
  destruct (on_set (JS.trim <$> p_title p) _); [intros [= <-]; eauto|].
  destruct (on_set (JS.trim <$> p_content p) _); [intros [= <-]; eauto|].
  destruct (on_set (p_category p) _); [intros [= <-]; eauto|].
  destruct (on_set (p_language p) _); [intros [= <-]; eauto|].
  destruct (validate_with isURL _ (p_imageUrl p)); [intros [= <-]; eauto|].
  destruct (validate_with isURL _ (p_externalLink p));
    [intros [= <-]; eauto|done].
Qed.

Lemma merge_well_formed doc u :
  well_formed isURL doc →
  (∀ t, p_title u = Some t →
        t ≠ EmptyString ∧ (JS.length t ≤ 100)%nat ∧ JS.trim t = t) →
  (∀ c, p_content u = Some c → c ≠ EmptyString ∧ JS.trim c = c) →
  (∀ c, p_category u = Some c → c ∈ categories) →
  (∀ l, p_language u = Some l → l ∈ languages) →
  (∀ x, p_imageUrl u = Some x → isURL x = true) →
  (∀ x, p_externalLink u = Some x → isURL x = true) →
  well_formed isURL (merge doc u).
Proof.
  intros (? & ? & ? & ? & ? & ? & ? & Himg & Hext) Ht Hc Hcat Hl Hi He.
  unfold well_formed, merge. simpl.
  destruct (p_title u) as [t|]; [destruct (Ht t eq_refl) as (? & ? & ?)|];
  destruct (p_content u) as [c|]; [destruct (Hc c eq_refl)| |destruct (Hc c eq_refl)|];
  destruct (p_category u) as [cat|]; try specialize (Hcat _ eq_refl);
  destruct (p_language u) as [l|]; try specialize (Hl _ eq_refl);
  destruct (p_imageUrl u) as [img|]; try specialize (Hi _ eq_refl);
  destruct (p_externalLink u) as [ext|]; try specialize (He _ eq_refl);
  simpl; split_and!; try done; by intros ? [= <-].
Qed.

(** X9. Create, update and delete keep the collection within the
    schema: if every stored article has a trimmed, non-empty title of
    length 100 at most, a trimmed, non-empty content, an enumerated
    category and language and acceptable URLs, the same holds after any
    of the three handlers has run, whatever the request and whether or
    not the store answers. *)
Theorem handlers_keep_schema (outage : option StoreFailure)
    (req : Request Payload) (db : gmap string Doc) :
  map_Forall (λ _, well_formed isURL) db →
  map_Forall (λ _, well_formed isURL) (createArticle outage req db).2 ∧
  map_Forall (λ _, well_formed isURL) (updateArticle outage req db).2 ∧
  map_Forall (λ _, well_formed isURL) (deleteArticle outage req db).2.
Proof.
  intros Hdb. split_and!.
  - unfold Controller.createArticle, create.
    destruct (validate isURL now summary (body req)) as [?|doc] eqn:Hv;
      [done|].
    destruct outage; [done|]. destruct (db !! oid); [done|]. simpl.
    apply map_Forall_insert_2; [by eapply validate_well_formed|done].
  - unfold Update.updateArticle, findByIdAndUpdate.
    destruct (castObjectId (params_id req)) as [key|]; [|done].
    destruct (validate_update isURL summary (body req)) as [?|u] eqn:Hu;
      [done|].
    destruct outage; [done|].
    destruct (db !! key) as [doc|] eqn:Hdoc; [|done]. simpl.
    apply validate_update_inr in Hu as (_ & ? & ? & ? & ? & ? & ?).
    apply map_Forall_insert_2; [|done].
    apply merge_well_formed; try done. by apply (Hdb key).
  - unfold Controller.deleteArticle, findByIdAndDelete.
    destruct (castObjectId (params_id req)) as [key|]; [|done].
    destruct outage; [done|]. simpl. by apply map_Forall_delete.
Qed.

(** X10. An acceptable payload under a fresh identifier, with a store
    that answers, is answered with 201 and the stored article;
    get-by-id on that identifier, however it is written, then returns
    the very same article, get-by-id on any other identifier answers as
    before, and the collection has grown by one. *)
Theorem create_then_get (req : Request Payload) (db : gmap string Doc) :
  acceptable isURL (body req) →
  db !! oid = None →
  ∃ doc,
    validate isURL now summary (body req) = inr doc ∧
    createArticle None req db =
      (Json 201 (ArticleOne "success" (oid, doc)), <[oid := doc]> db) ∧
    (∀ id, castObjectId id = Some oid →
       getArticle None (readdressed req id ()) (createArticle None req db).2 =
       Json 200 (ArticleOne "success" (oid, doc))) ∧
    (∀ outage other, castObjectId other ≠ Some oid →
       getArticle outage (readdressed req other ())
         (createArticle None req db).2 =
       getArticle outage (readdressed req other ()) db) ∧
    size (createArticle None req db).2 = S (size db).
Proof.
  intros [doc Hdoc]%(schema_accepts_doc isURL now summary) Hfresh. exists doc.
  unfold Controller.createArticle, create, Controller.getArticle, findById.
  rewrite Hdoc, Hfresh. simpl. split_and!; try done.
  - intros id ->. by rewrite lookup_insert_eq.
  - intros outage other Hother.
    destruct (castObjectId other) as [key|]; [|done].
    destruct outage; [done|]. rewrite lookup_insert_ne; [done|]. congruence.
  - by apply map_size_insert_None.
Qed.

Lemma requested_dec (q : Query) (d : Doc) :
  castable castFilter (q_category q) → castable castFilter (q_language q) →
  requested castFilter q d ∨ ¬ requested castFilter q d.
Proof.
  intros (tc & _ & Hc)%condition_asks (tl & _ & Hl)%condition_asks.
  unfold requested. rewrite <- Hc, <- Hl.
  destruct (tc (category d)), (tl (language d)); [by left|right..];
    by intros [? ?].
Qed.

(** The list a store that answers gives for a request, a permutation of
    what it found. *)
Lemma listing {C} (lreq : Request C) (db : gmap string Doc) :
  castable castFilter (q_category (query lreq)) →
  castable castFilter (q_language (query lreq)) →
  ∃ articles,
    getAllArticles None lreq db =
      Json 200 (ArticleList "success" (length articles) articles) ∧
    NoDup articles ∧
    (length articles ≤ size db)%nat ∧
    ∀ id doc, (id, doc) ∈ articles ↔
              db !! id = Some doc ∧ requested castFilter (query lreq) doc.
Proof.
  intros Hc Hl.
  destruct (find_requested castFilter (query lreq) db Hc Hl)
    as (found & Hfound & _ & Hspec & Hnodup & Hsize).
  destruct (getAllArticles_found castFilter lreq db found Hfound)
    as [Hlist Hperm].
  exists (sort_createdAt_desc found). split; [done|].
  split; [by rewrite Hperm|]. split; [by rewrite Hperm|].
  intros id doc. rewrite Hperm. apply Hspec.
Qed.

(** X11. After a create has succeeded, a list request the store accepts
    and answers shows the new article, once, if it asks for it, and
    apart from it the same articles as before; its count is one more,
    or the same when it does not ask for the new article. *)
Theorem create_then_list {C} (outage : option StoreFailure)
    (req : Request Payload) (lreq : Request C)
    (db : gmap string Doc) (created : string * Doc) :
  (createArticle outage req db).1 =
    Json 201 (ArticleOne "success" created) →
  castable castFilter (q_category (query lreq)) →
  castable castFilter (q_language (query lreq)) →
  ∃ before after,
    getAllArticles None lreq db =
      Json 200 (ArticleList "success" (length before) before) ∧
    getAllArticles None lreq (createArticle outage req db).2 =
      Json 200 (ArticleList "success" (length after) after) ∧
    (requested castFilter (query lreq) created.2 →
     after ≡ₚ created :: before) ∧
    (¬ requested castFilter (query lreq) created.2 → after ≡ₚ before) ∧
    created ∉ before.
Proof.
  unfold Controller.createArticle, create.
  destruct (validate isURL now summary (body req)) as [?|doc]; [done|].
  destruct outage; [done|].
  destruct (db !! oid) eqn:Hfresh; [done|]. simpl. intros [= <-] Hc Hl.
  destruct (listing lreq db Hc Hl) as (before & Hb & Hnb & _ & Hsb).
  destruct (listing lreq (<[oid := doc]> db) Hc Hl)
    as (after & Ha & Hna & _ & Hsa).
  exists before, after. split; [done|]. split; [done|].
  assert ((oid, doc) ∉ before) as Hnew.
  { intros [Hin _]%Hsb. congruence. }
  split_and!; [| |done].
  - intros Hasked. apply NoDup_Permutation; [done|by constructor|].
    intros [id d]. rewrite elem_of_cons, Hsa, Hsb, lookup_insert_Some.
    split.
    + intros [[[<- <-]|[? ?]] ?]; [by left|by right].
    + intros [[= -> ->]|[? ?]]; [split; [by left|done]|].
      split; [|done]. right. split; [|done]. intros <-. congruence.
  - intros Hnot. apply NoDup_Permutation; [done..|].
    intros [id d]. rewrite Hsa, Hsb, lookup_insert_Some.
    split.
    + intros [[[<- <-]|[? ?]] ?]; [done|by split].
    + intros [? ?]. split; [|done]. right. split; [|done].
      intros <-. congruence.
Qed.

(** X12. After the delete of an existing article has succeeded, a list
    request the store accepts and answers no longer shows it and shows
    every other article it showed before; its count is one less when it
    asked for the article and the same otherwise. *)
Theorem delete_then_list {B C} (req : Request B) (lreq : Request C)
    (db : gmap string Doc) (key : string) (doc : Doc) :
  castObjectId (params_id req) = Some key →
  db !! key = Some doc →
  castable castFilter (q_category (query lreq)) →
  castable castFilter (q_language (query lreq)) →
  ∃ before after,
    getAllArticles None lreq db =
      Json 200 (ArticleList "success" (length before) before) ∧
    getAllArticles None lreq (deleteArticle None req db).2 =
      Json 200 (ArticleList "success" (length after) after) ∧
    (requested castFilter (query lreq) doc →
     before ≡ₚ (key, doc) :: after) ∧
    (¬ requested castFilter (query lreq) doc → before ≡ₚ after) ∧
    (∀ d, (key, d) ∉ after).
Proof.
  intros Hkey Hdoc Hc Hl.
  unfold Controller.deleteArticle, findByIdAndDelete. rewrite Hkey. simpl.
  destruct (listing lreq db Hc Hl) as (before & Hb & Hnb & _ & Hsb).
  destruct (listing lreq (delete key db) Hc Hl)
    as (after & Ha & Hna & _ & Hsa).
  exists before, after. split; [done|]. split; [done|].
  assert (∀ d, (key, d) ∉ after) as Hgone.
  { intros d [Hin _]%Hsa. by rewrite lookup_delete_eq in Hin. }
  split_and!; [| |done].
  - intros Hasked. apply NoDup_Permutation; [done| |].
    { constructor; [apply Hgone|done]. }
    intros [id d]. rewrite elem_of_cons, Hsa, Hsb, lookup_delete_Some.
    split.
    + intros [Hin ?]. destruct (decide (id = key)) as [->|Hne].
      * left. congruence.
      * right. by split.
    + intros [[= -> ->]|[[? ?] ?]]; by split.
  - intros Hnot. apply NoDup_Permutation; [done..|].
    intros [id d]. rewrite Hsa, Hsb, lookup_delete_Some.
    split.
    + intros [Hin ?]. split; [|done]. split; [|done].
      intros <-. rewrite Hdoc in Hin. by injection Hin as <-.
    + intros [[? ?] ?]. by split.
Qed.

(** X13. A list request the store accepts and answers never shows more
    articles than the collection holds, and every article it shows is
    stored under the identifier shown and has the category and the
    language the request asks for, for each of the two parameters that
    is a non-empty string. *)
Theorem list_honours_filter {C} (lreq : Request C) (db : gmap string Doc) :
  castable castFilter (q_category (query lreq)) →
  castable castFilter (q_language (query lreq)) →
  ∃ articles,
    getAllArticles None lreq db =
      Json 200 (ArticleList "success" (length articles) articles) ∧
    (length articles ≤ size db)%nat ∧
    ∀ id doc, (id, doc) ∈ articles →
      db !! id = Some doc ∧
      (∀ c, q_category (query lreq) = Some (QString c) → c ≠ EmptyString →
            category doc = c) ∧
      (∀ l, q_language (query lreq) = Some (QString l) → l ≠ EmptyString →
            language doc = l).
Proof.
  intros Hc Hl.
  destruct (listing lreq db Hc Hl) as (articles & Ha & _ & Hsize & Hspec).
  exists articles. split; [done|]. split; [done|].
  intros id doc [Hdoc [Hcat Hlang]]%Hspec. split; [done|]. split.
  - intros c Hq Hne. rewrite Hq in Hcat. by destruct c.
  - intros l Hq Hne. rewrite Hq in Hlang. by destruct l.
Qed.

(** X14. An update writes only when it answers 200: when it fails, the
    collection is as it was. The identifier is cast first and the
    payload validated next, both before the article is looked up: an
    identifier that is not an ObjectId fails at the cast whatever the
    payload, and an update of an absent article fails with a validation
    error or, when the store answers, with NotFound. An update never
    adds or removes an article and never touches an article other than
    the one named. *)
Theorem update_writes_only_on_success (outage : option StoreFailure)
    (req : Request Payload) (db : gmap string Doc) :
  let o := (updateArticle outage req db).1 in
  let db' := (updateArticle outage req db).2 in
  (∀ e, o = NextErr e → db' = db) ∧
  (∀ status payload, o = Json status payload →
     status = 200 ∧ outage = None ∧
     ∃ key doc doc',
       castObjectId (params_id req) = Some key ∧
       db !! key = Some doc ∧
       payload = ArticleOne "success" (key, doc') ∧
       db' = <[key := doc']> db) ∧
  (∀ r, o ≠ Next r) ∧
  (castObjectId (params_id req) = None →
   o = NextErr (StoreError (cast_error (params_id req)))) ∧
  (∀ key, castObjectId (params_id req) = Some key → db !! key = None →
     (∃ vs, o = NextErr (update_failed summary vs)) ∨
     (∃ failure, outage = Some failure ∧ o = NextErr (StoreError failure)) ∨
     (outage = None ∧ o = NextErr not_found)) ∧
  dom db' = dom db ∧
  (∀ other, castObjectId (params_id req) ≠ Some other →
            db' !! other = db !! other).
Proof.
  cbv zeta. unfold Update.updateArticle, findByIdAndUpdate.
  destruct (castObjectId (params_id req)) as [key|] eqn:Hkey;
    [|by split_and!].
  destruct (validate_update isURL summary (body req)) as [e|u] eqn:Hu.
  { simpl. split_and!; try done. intros ? _ _. left.
    apply validate_update_inl in Hu as [vs ->]. eauto. }
  destruct outage as [failure|].
  { simpl. split_and!; try done. intros ? _ _. right; left. eauto. }
  destruct (db !! key) as [doc|] eqn:Hdoc; simpl.
  - split_and!; try done.
    + intros status payload [= <- <-]. split; [done|]. split; [done|].
      by exists key, doc, (merge doc u).
    + intros ? [= <-]. congruence.
    + by apply dom_insert_lookup_L.
    + intros other Hother. rewrite lookup_insert_ne; [done|]. congruence.
  - split_and!; try done. intros ? _ _. right; right. done.
Qed.

(** X15. When an update of an existing article is answered with 200, the
    article in the answer is the stored article with the fields the
    payload sets replaced (title and content trimmed) and every other
    field as it was; get-by-id on the same identifier then returns that
    same article; and an update whose payload sets nothing leaves the
    collection as it was. *)
Theorem update_then_get (outage : option StoreFailure)
    (req : Request Payload) (db : gmap string Doc)
    (key : string) (doc doc' : Doc) (status : Z) (word i : string) :
  castObjectId (params_id req) = Some key →
  db !! key = Some doc →
  (updateArticle outage req db).1 = Json status (ArticleOne word (i, doc')) →
  i = key ∧
  getArticle None (readdressed req (params_id req) ())
    (updateArticle outage req db).2 =
    Json 200 (ArticleOne "success" (i, doc')) ∧
  title doc' = default (title doc) (JS.trim <$> p_title (body req)) ∧
  content doc' = default (content doc) (JS.trim <$> p_content (body req)) ∧
  category doc' = default (category doc) (p_category (body req)) ∧
  readTime doc' = default (readTime doc) (p_readTime (body req)) ∧
  language doc' = default (language doc) (p_language (body req)) ∧
  imageUrl doc' = from_option Some (imageUrl doc) (p_imageUrl (body req)) ∧
  externalLink doc' =
    from_option Some (externalLink doc) (p_externalLink (body req)) ∧
  createdAt doc' = default (createdAt doc) (p_createdAt (body req)) ∧
  updatedAt doc' = from_option Some (updatedAt doc) (p_updatedAt (body req)) ∧
  (body req = {| p_title := None; p_content := None; p_category := None;
                 p_readTime := None; p_language := None; p_imageUrl := None;
                 p_externalLink := None; p_createdAt := None;
                 p_updatedAt := None |} →
   doc' = doc ∧ (updateArticle outage req db).2 = db).
Proof.
  intros Hkey Hdoc.
  unfold Update.updateArticle, findByIdAndUpdate, Controller.getArticle,
    findById.
  simpl. rewrite Hkey.
  destruct (validate_update isURL summary (body req)) as [e|u] eqn:Hu; [done|].
  destruct outage; [done|].
  rewrite Hdoc. simpl. intros [= <- <- <- <-].
  apply validate_update_inr in Hu as [-> _].
  rewrite lookup_insert_eq. simpl. split_and!; try done.
  intros ->. simpl. destruct doc; simpl in *.
  split; [done|]. by apply insert_id.
Qed.
End collection_facts.

(** ** The contact form against the contact routes *)

(** X16. Served by either contact route, the contact form tells the
    visitor that the question was submitted, and resets itself, exactly
    when the message was saved; when saving fails the visitor is shown
    the fixed error notice, whatever the exception and whichever route
    answers, and nothing is written to the page's console. *)
Theorem contact_form_end_to_end
    (Contact_create :
       ContactFields → gmap string ContactFields →
       Err + (string * ContactFields) * gmap string ContactFields)
    (db : gmap string ContactFields) (n e s m : string) :
  let fields :=
    {| name := Some n; contact_email := Some e; subject := Some s;
       message := Some m |} in
  let shown :=
    Frontend.submit
      (fetch_from (λ r d, (Contact.post_contact Contact_create r d).1) db)
      n e s m in
  let shown_draft :=
    Frontend.submit
      (fetch_from (Contact.post_contact_draft Contact_create) db) n e s m in
  (Frontend.form_reset shown = true ↔
   ∃ stored db', Contact_create fields db = inr (stored, db')) ∧
  (Frontend.form_reset shown = true ↔
   Frontend.alert shown = "Your question has been submitted successfully!") ∧
  (∀ err, Contact_create fields db = inl err →
     Frontend.alert shown = "There was an error submitting your question.") ∧
  Frontend.console shown = [] ∧
  shown_draft = shown.
Proof.
  cbv zeta.
  unfold Frontend.submit, fetch_from, serve_contact, Contact.post_contact,
    Contact.post_contact_draft. simpl.
  destruct (Contact_create _ db) as [err|[stored db']]; simpl.
  - split_and!; try done. split; [done|]. by intros (? & ? & [=]).
  - split_and!; try done. split; eauto.
Qed.

(** ** The further properties on sample requests *)

(** X1, for the header "Bearer good". *)
Lemma bearer_token_read_back_witness :
  credential Sample.bearer_good = Some "good" ∧
  head (Auth.auth "secret" Sample.verify Sample.findById Sample.bearer_good).2 =
    Some (Auth.Verify "good" "secret").
Proof.
  apply (bearer_token_read_back "secret" Sample.verify Sample.findById
           Sample.bearer_good "" "good").
  - reflexivity.
  - reflexivity.
  - reflexivity.
  - discriminate.
Defined.

(** X2, for the header "Bearer good". *)
Lemma verified_token_shape_witness :
  "secret" = "secret" ∧ "good" ≠ EmptyString ∧ occurs " " "good" = false ∧
  ∃ a, authorization (headers Sample.bearer_good) = Some a ∧
       JS.startsWith a "Bearer" = true ∧
       JS.split " " a !! 1%nat = Some "good".
Proof.
  apply (verified_token_shape "secret" Sample.verify Sample.findById
           Sample.bearer_good "good" "secret").
  simpl. left.
Defined.

(** X4, for the header "Bearer good". *)
Lemma auth_attaches_user_only_witness :
  Auth.auth "secret" Sample.verify Sample.findById
    (set_user Sample.admin Sample.bearer_good) =
    (Next (set_user Sample.admin Sample.bearer_good),
     (Auth.auth "secret" Sample.verify Sample.findById Sample.bearer_good).2).
Proof.
  apply (auth_attaches_user_only "secret" Sample.verify Sample.findById
           Sample.bearer_good (set_user Sample.admin Sample.bearer_good)).
  reflexivity.
Defined.

(** X7, for an article on nutrition whose title is padded with a
    no-break space, a space and a tab. *)
Lemma schema_accepts_exactly_witness :
  Article.validate Sample.isURL 1700000900000 Sample.summary Sample.beans =
    inr Sample.beans_doc ∧
  acceptable Sample.isURL Sample.beans.
Proof.
  assert (Article.validate Sample.isURL 1700000900000 Sample.summary
            Sample.beans = inr Sample.beans_doc) as Hdoc
    by (vm_compute; reflexivity).
  split; [exact Hdoc|].
  apply (schema_accepts_exactly Sample.isURL 1700000900000 Sample.summary
           Sample.beans).
  exists Sample.beans_doc. exact Hdoc.
Defined.

(** X8, for a payload whose title is a no-break space, without read
    time and with the language "Spanish". *)
Lemma every_violation_reported_witness :
  Sample.incomplete_violations !! "title" = Some "Please provide a title".
Proof.
  apply (every_violation_reported Sample.isURL 0 Sample.summary
           Sample.incomplete
           ("Article validation failed: " +:+
            Sample.summary Sample.incomplete_violations)
           Sample.incomplete_violations).
  - vm_compute. reflexivity.
  - vm_compute. reflexivity.
Defined.

Lemma sample_articles_well_formed :
  map_Forall (λ _, well_formed Sample.isURL) Sample.articles.
Proof.
  assert (∀ d, d = Sample.storage_guide ∨ d = Sample.hygiene_guide →
               well_formed Sample.isURL d) as Hwf.
  { intros d [-> | ->]; unfold well_formed; split_and!;
      try done; try (vm_compute; reflexivity);
      try (apply (bool_decide_unpack _); vm_compute; exact I);
      vm_compute; lia. }
  apply map_Forall_insert_2; [apply Hwf; by left|].
  apply map_Forall_insert_2; [apply Hwf; by right|].
  apply map_Forall_empty.
Qed.

(** X9, for the two sample articles and an update of the first. *)
Lemma handlers_keep_schema_witness :
  map_Forall (λ _, well_formed Sample.isURL)
    (Update.updateArticle Sample.isURL Sample.summary Sample.castObjectId None
       (Sample.request None (Some Sample.admin) Sample.storage_id
          Sample.no_query Sample.retitle)
       Sample.articles).2.
Proof.
  apply (handlers_keep_schema Sample.castObjectId Sample.isURL 1700000900000
           Sample.summary Sample.fresh_id None
           (Sample.request None (Some Sample.admin) Sample.storage_id
              Sample.no_query Sample.retitle)
           Sample.articles).
  exact sample_articles_well_formed.
Defined.

Lemma beans_acceptable : acceptable Sample.isURL Sample.beans.
Proof.
  unfold acceptable. split_and!.
  - eexists. split_and!; [reflexivity|by vm_compute|vm_compute; lia].
  - eexists. split; [reflexivity|by vm_compute].
  - exists "Nutrition". split; [done|].
    apply (bool_decide_unpack _). vm_compute. exact I.
  - by exists 4.
  - exists "English". split; [done|].
    apply (bool_decide_unpack _). vm_compute. exact I.
  - by intros u [= <-].
  - done.
Qed.

(** X10, for an article on nutrition stored under a fresh identifier. *)
Lemma create_then_get_witness :
  ∃ doc,
    Controller.getArticle Sample.castObjectId None
      (Sample.request None None Sample.fresh_id Sample.no_query ())
      (Controller.createArticle Sample.isURL 1700000900000 Sample.summary
         Sample.fresh_id None
         (Sample.request None (Some Sample.admin) "" Sample.no_query
            Sample.beans)
         Sample.articles).2 =
    Json 200 (ArticleOne "success" (Sample.fresh_id, doc)).
Proof.
  destruct (create_then_get Sample.castObjectId Sample.isURL 1700000900000
              Sample.summary Sample.fresh_id
              (Sample.request None (Some Sample.admin) "" Sample.no_query
                 Sample.beans)
              Sample.articles beans_acceptable eq_refl)
    as (doc & _ & _ & Hget & _).
  exists doc. exact (Hget Sample.fresh_id eq_refl).
Defined.

(** X11, for the same article and an unfiltered list. *)
Lemma create_then_list_witness :
  ∃ before after,
    Controller.getAllArticles Sample.castFilter None
      (Sample.request None None "" Sample.no_query ()) Sample.articles =
      Json 200 (ArticleList "success" (length before) before) ∧
    Controller.getAllArticles Sample.castFilter None
      (Sample.request None None "" Sample.no_query ())
      (Controller.createArticle Sample.isURL 1700000900000 Sample.summary
         Sample.fresh_id None
         (Sample.request None (Some Sample.admin) "" Sample.no_query
            Sample.beans)
         Sample.articles).2 =
      Json 200 (ArticleList "success" (length after) after) ∧
    after ≡ₚ (Sample.fresh_id, Sample.beans_doc) :: before ∧
    (Sample.fresh_id, Sample.beans_doc) ∉ before.
Proof.
  destruct (create_then_list Sample.castFilter Sample.isURL 1700000900000
              Sample.summary Sample.fresh_id None
              (Sample.request None (Some Sample.admin) "" Sample.no_query
                 Sample.beans)
              (Sample.request None None "" Sample.no_query ())
              Sample.articles (Sample.fresh_id, Sample.beans_doc))
    as (before & after & Hb & Ha & Hshown & _ & Hnew).
  - vm_compute. reflexivity.
  - exact I.
  - exact I.
  - exists before, after. split; [exact Hb|]. split; [exact Ha|].
    split; [|exact Hnew]. apply Hshown. split; exact I.
Defined.

(** X12, for the delete of the storage guide and a list by category. *)
Lemma delete_then_list_witness :
  ∃ before after,
    Controller.getAllArticles Sample.castFilter None
      (Sample.request None None ""
         (Sample.query (Some (QString "Chemical Safety")) None) ())
      Sample.articles =
      Json 200 (ArticleList "success" (length before) before) ∧
    Controller.getAllArticles Sample.castFilter None
      (Sample.request None None ""
         (Sample.query (Some (QString "Chemical Safety")) None) ())
      (Controller.deleteArticle Sample.castObjectId None
         (Sample.request None (Some Sample.admin) Sample.storage_id
            Sample.no_query ())
         Sample.articles).2 =
      Json 200 (ArticleList "success" (length after) after) ∧
    before ≡ₚ (Sample.storage_id, Sample.storage_guide) :: after ∧
    (∀ d, (Sample.storage_id, d) ∉ after).
Proof.
  destruct (delete_then_list Sample.castObjectId Sample.castFilter
              (Sample.request None (Some Sample.admin) Sample.storage_id
                 Sample.no_query ())
              (Sample.request None None ""
                 (Sample.query (Some (QString "Chemical Safety")) None) ())
              Sample.articles Sample.storage_id Sample.storage_guide)
    as (before & after & Hb & Ha & Hshown & _ & Hgone).
  - reflexivity.
  - reflexivity.
  - exact I.
  - exact I.
  - exists before, after. split; [exact Hb|]. split; [exact Ha|].
    split; [|exact Hgone]. apply Hshown. split; [reflexivity|exact I].
Defined.

(** X13, for a list of the articles on hygiene. *)
Lemma list_honours_filter_witness :
  ∃ articles,
    Controller.getAllArticles Sample.castFilter None
      (Sample.request None None ""
         (Sample.query (Some (QString "Hygiene")) None) ())
      Sample.articles =
      Json 200 (ArticleList "success" (length articles) articles) ∧
    ∀ id doc, (id, doc) ∈ articles → Article.category doc = "Hygiene".
Proof.
  destruct (list_honours_filter Sample.castFilter
              (Sample.request None None ""
                 (Sample.query (Some (QString "Hygiene")) None) ())
              Sample.articles I I)
    as (articles & Ha & _ & Hshown).
  exists articles. split; [exact Ha|].
  intros id doc Hin. destruct (Hshown id doc Hin) as (_ & Hcat & _).
  apply Hcat; [reflexivity|discriminate].
Defined.

(** X14, for an update addressed to "a9", which is not an ObjectId. *)
Lemma update_writes_only_on_success_witness :
  (Update.updateArticle Sample.isURL Sample.summary Sample.castObjectId None
     (Sample.request None (Some Sample.admin) "a9" Sample.no_query
        Sample.retitle)
     Sample.articles).1 = NextErr (StoreError (Article.cast_error "a9")).
Proof.
  destruct (update_writes_only_on_success Sample.castObjectId Sample.isURL
              Sample.summary None
              (Sample.request None (Some Sample.admin) "a9" Sample.no_query
                 Sample.retitle)
              Sample.articles) as (_ & _ & _ & Hcast & _).
  apply Hcast. reflexivity.
Defined.

(** X15, for an update of the storage guide that sets the title and the
    language. *)
Lemma update_then_get_witness :
  Controller.getArticle Sample.castObjectId None
    (Sample.request None (Some Sample.admin) Sample.storage_id
       Sample.no_query ())
    (Update.updateArticle Sample.isURL Sample.summary Sample.castObjectId None
       (Sample.request None (Some Sample.admin) Sample.storage_id
          Sample.no_query Sample.retitle)
       Sample.articles).2 =
  Json 200 (ArticleOne "success" (Sample.storage_id, Sample.retitled)).
Proof.
  apply (update_then_get Sample.castObjectId Sample.isURL Sample.summary None
           (Sample.request None (Some Sample.admin) Sample.storage_id
              Sample.no_query Sample.retitle)
           Sample.articles Sample.storage_id Sample.storage_guide
           Sample.retitled 200 "success" Sample.storage_id).
  - reflexivity.
  - reflexivity.
  - vm_compute. reflexivity.
Defined.

(** The schema takes a title of 51 accented letters, 102 bytes in
    UTF-8, and refuses a title that is a no-break space. *)
Example accented_title_accepted :
  ∃ doc,
    Article.validate Sample.isURL 0 Sample.summary
      {| Article.p_title := Some Sample.accented_title;
         Article.p_content := Some "Text";
         Article.p_category := Some "Hygiene";
         Article.p_readTime := Some 2;
         Article.p_language := Some "Français";
         Article.p_imageUrl := None; Article.p_externalLink := None;
         Article.p_createdAt := None; Article.p_updatedAt := None |} =
      inr doc ∧
    Article.title doc = Sample.accented_title.
Proof. eexists. split; vm_compute; reflexivity. Qed.

Example no_break_space_title_refused :
  Article.validate Sample.isURL 0 Sample.summary Sample.incomplete =
    inl (ValidationError
           ("Article validation failed: " +:+
            Sample.summary Sample.incomplete_violations)
           Sample.incomplete_violations).
Proof. vm_compute. reflexivity. Qed.
